(** * Meeting assistant: context assembly, summarisation and UI callbacks

    A shallow embedding of the Python modules [qa.py], [summarization.py],
    [vector_store.py], [transcription.py] and [gradio_app.py].

    - Python [str] values are sequences of Unicode code points.
    - Calls to the external services (speech-to-text, chat completion,
      embedding and vector search) are events: a computation reads the
      history of earlier events and emits the events it performs, together
      with either a value or a raised exception.
    - The text splitter, the chat client, the vector store and the
      retriever are third-party objects; they are fields of a [World]. *)

From Stdlib Require Import String Ascii DecimalString.
From Stdlib Require Import List ZArith NArith Lia Bool.
Import ListNotations.
Open Scope Z_scope.

(** ** Python strings *)

Module PyStr.

(** A [str] is its sequence of code points. *)
Definition str := list N.

(** An ASCII literal of the source. *)
Definition lit (s : string) : str :=
  map N_of_ascii (list_ascii_of_string s).

Definition nl : str := [10%N].

(** [len(s)] *)
Definition len (s : str) : Z := Z.of_nat (length s).

(** [str.isspace] on one code point: the white space table of CPython
    ([_PyUnicode_IsWhitespace]). *)
Definition isspace (c : N) : bool :=
  ((9 <=? c) && (c <=? 13) || (28 <=? c) && (c <=? 32)
   || (c =? 133) || (c =? 160) || (c =? 5760)
   || (8192 <=? c) && (c <=? 8202)
   || (c =? 8232) || (c =? 8233) || (c =? 8239) || (c =? 8287)
   || (c =? 12288))%N.

Fixpoint lstrip (s : str) : str :=
  match s with
  | [] => []
  | c :: s' => if isspace c then lstrip s' else s
  end.

Fixpoint rstrip (s : str) : str :=
  match s with
  | [] => []
  | c :: s' =>
      match rstrip s' with
      | [] => if isspace c then [] else [c]
      | kept => c :: kept
      end
  end.

(** [s.strip()] *)
Definition strip (s : str) : str := rstrip (lstrip s).

(** [not s] *)
Definition is_empty (s : str) : bool :=
  match s with [] => true | _ :: _ => false end.

(** [s[:n]] for a non-negative constant [n] *)
Definition slice_to (n : Z) (s : str) : str := firstn (Z.to_nat n) s.

(** [sep.join(parts)] *)
Fixpoint join (sep : str) (parts : list str) : str :=
  match parts with
  | [] => []
  | [p] => p
  | p :: ps => p ++ sep ++ join sep ps
  end.

(** [str(n)] for a non-negative [int] *)
Definition of_nat (n : nat) : str :=
  lit (NilEmpty.string_of_uint (Nat.to_uint n)).

End PyStr.
Import PyStr.

(** ** Documents (langchain_core.documents.Document) *)

Record Document := mkDocument {
  page_content : str;
  metadata : list (str * str)
}.

(** ** qa.py: the context assembler *)

Definition NO_CONTEXT : str :=
  lit "No relevant context was found in the transcript.".

(** [f"- {text}\n"] *)
Definition bullet (text : str) : str := lit "- " ++ text ++ nl.

(** The [for doc in docs] loop of [_format_context]; the result is the
    list [parts] when the loop ends or breaks. *)
Fixpoint format_loop (docs : list Document) (max_chars : Z)
         (parts : list str) (current_len : Z) : list str :=
  match docs with
  | [] => parts
  | doc :: rest =>
      let text := strip (page_content doc) in
      if is_empty text then format_loop rest max_chars parts current_len
      else
        let chunk := bullet text in
        if current_len + len chunk >? max_chars then parts
        else format_loop rest max_chars (parts ++ [chunk])
                         (current_len + len chunk)
  end.

Definition _format_context (docs : list Document) (max_chars : Z) : str :=
  let parts := format_loop docs max_chars [] 0 in
  match parts with
  | [] => NO_CONTEXT
  | _ => concat parts
  end.

(** ** Effects: exceptions and calls to the external services *)

(** An exception is represented by its message [str(e)], which is all the
    handlers of the program read.  [Raise] stands for an exception of class
    [Exception], the ones the handlers of the program catch; what
    [except Exception] lets through ([KeyboardInterrupt], [SystemExit]) is
    outside the model. *)
Inductive result (A : Type) : Type :=
| Ok (a : A)
| Raise (msg : str).
Arguments Ok {A} a.
Arguments Raise {A} msg.

(** A chat message [{"role": ..., "content": ...}]. *)
Record Message := mkMessage {
  role : str;
  content : str
}.

(** The response of [chat.complete]: the [message.content] of each of its
    [choices]. *)
Record ChatResponse := mkChatResponse {
  choices : list str
}.

(** [OpenAIEmbeddings(model=...)] *)
Record OpenAIEmbeddings := mkOpenAIEmbeddings {
  model : str
}.

(** The FAISS vector store, represented by the documents it indexes and
    the embeddings object it was built with; the vectors are not modelled. *)
Record FAISS := mkFAISS {
  docstore : list Document;
  embedding_function : OpenAIEmbeddings
}.

(** [vector_store.as_retriever(search_kwargs={"k": k})] *)
Record Retriever := mkRetriever {
  vectorstore : FAISS;
  search_k : Z
}.

(** One call to an external service, with what it was given and what came
    back. *)
Inductive Event : Type :=
| Transcription (whisper_model : str) (file_path : str) (out : result str)
| ChatComplete (chat_model : str) (messages : list Message)
               (out : result ChatResponse)
| FromDocuments (docs : list Document) (embeddings : OpenAIEmbeddings)
                (out : result FAISS)
| Invoke (retriever : Retriever) (query : str)
         (out : result (list Document)).

Definition is_chat_complete (e : Event) : bool :=
  match e with ChatComplete _ _ _ => true | _ => false end.

(** The shared Mistral client of config.py. *)
Record Mistral := mkMistral {
  chat_complete : list Event -> str -> list Message -> result ChatResponse
}.

(** Everything the program takes from its environment and from third-party
    libraries.  A service answers as a function of the history of earlier
    events and of its arguments.  The text splitter
    ([RecursiveCharacterTextSplitter]) takes [chunk_size], [chunk_overlap],
    the separators and its input; it may raise, as its constructor does. *)
Record World := mkWorld {
  OPENAI_WHISPER_MODEL : str;
  OPENAI_EMBEDDING_MODEL : str;
  MISTRAL_CHAT_MODEL : str;
  mistral_client : option Mistral;
  transcriptions_create : list Event -> str -> str -> result str;
  split_text : Z -> Z -> list str -> str -> result (list str);
  split_documents :
    Z -> Z -> list str -> list Document -> result (list Document);
  faiss_from_documents :
    list Event -> list Document -> OpenAIEmbeddings -> result FAISS;
  retriever_invoke : list Event -> Retriever -> str -> result (list Document)
}.

(** A computation reads the history and returns the events it emitted and
    its outcome. *)
Definition IO (A : Type) : Type := list Event -> list Event * result A.

Definition ret {A} (a : A) : IO A := fun _ => ([], Ok a).

Definition raise {A} (msg : str) : IO A := fun _ => ([], Raise msg).

Definition bind {A B} (m : IO A) (f : A -> IO B) : IO B :=
  fun h =>
    let (e1, r) := m h in
    match r with
    | Ok a => let (e2, r2) := f a (h ++ e1) in (e1 ++ e2, r2)
    | Raise msg => (e1, Raise msg)
    end.

(** [try: m  except Exception as e: handler(e)] *)
Definition try_except {A} (m : IO A) (handler : str -> IO A) : IO A :=
  fun h =>
    let (e1, r) := m h in
    match r with
    | Ok a => (e1, Ok a)
    | Raise msg => let (e2, r2) := handler msg (h ++ e1) in (e1 ++ e2, r2)
    end.

(** A call to a service: the answer is computed from the history and
    recorded with the request. *)
Definition call {A} (answer : list Event -> result A)
           (record : result A -> Event) : IO A :=
  fun h => let out := answer h in ([record out], out).

(** A call to a pure library function that may raise. *)
Definition lift {A} (r : result A) : IO A := fun _ => ([], r).

Declare Scope io_scope.
Delimit Scope io_scope with io.
Notation "x <- m ;; k" := (bind m (fun x => k))
  (at level 61, m at next level, right associativity) : io_scope.
Notation "m ;;; k" := (bind m (fun _ => k))
  (at level 61, right associativity) : io_scope.
Open Scope io_scope.

(** [try: x = m  except Exception as e: ...]: the outcome of [m], handed to
    the code that follows; nothing is raised. *)
Definition attempt {A} (m : IO A) : IO (result A) :=
  fun h => let (e1, r) := m h in (e1, Ok r).

Section Program.

Variable w : World.

(** ** summarization.py *)

Definition CLIENT_NOT_CONFIGURED : str :=
  lit "Mistral client is not configured. Make sure MISTRAL_API_KEY is set in your environment/.env file.".

Definition _ensure_mistral_client : IO unit :=
  match mistral_client w with
  | None => raise CLIENT_NOT_CONFIGURED
  | Some _ => ret tt
  end.

(** [mistral_client.chat.complete(model=MISTRAL_CHAT_MODEL, messages=...)] *)
Definition mistral_chat_complete (messages : list Message) : IO ChatResponse :=
  match mistral_client w with
  | None => raise (lit "'NoneType' object has no attribute 'chat'")
  | Some client =>
      call (fun h => chat_complete client h (MISTRAL_CHAT_MODEL w) messages)
           (ChatComplete (MISTRAL_CHAT_MODEL w) messages)
  end.

(** [response.choices[0].message.content] *)
Definition first_choice_content (response : ChatResponse) : IO str :=
  match choices response with
  | c :: _ => ret c
  | [] => raise (lit "list index out of range")
  end.

(** The en dash of the prompts. *)
Definition en_dash : str := [8211%N].

Definition summary_messages (prompt_content : str) : list Message :=
  [ mkMessage (lit "system")
      (lit "You are a helpful Meeting Assistant. "
       ++ lit "Your job is to read meeting transcripts and produce concise, "
       ++ lit "structured summaries that highlight key points, decisions, "
       ++ lit "and action items.");
    mkMessage (lit "user")
      (lit "Here is a meeting transcript (or part of it). "
       ++ lit "Please summarize it in the following structure:" ++ nl ++ nl
       ++ lit "1. Overview (2" ++ en_dash ++ lit "3 sentences)" ++ nl
       ++ lit "2. Key decisions (bullet points)" ++ nl
       ++ lit "3. Action items (bullet points, include owner and due date if mentioned)"
       ++ nl ++ nl
       ++ lit "Transcript:" ++ nl
       ++ prompt_content) ].

Definition _call_mistral_summary (prompt_content : str) : IO str :=
  _ensure_mistral_client ;;;
  let messages := summary_messages prompt_content in
  response <- try_except (mistral_chat_complete messages)
    (fun e => raise (lit "Failed to get summary from Mistral: " ++ e)) ;;
  summary_text <- try_except (first_choice_content response)
    (fun e => raise (lit "Unexpected response format from Mistral: " ++ e)) ;;
  ret summary_text.

Definition SEPARATORS : list str := [nl ++ nl; nl; lit ". "; lit " "].

Definition _split_text (text : str) (chunk_size chunk_overlap : Z)
  : IO (list str) :=
  lift (split_text w chunk_size chunk_overlap SEPARATORS text).

(** The loop [for idx, chunk in enumerate(chunks, start=1)]; the progress
    line it prints to the console is not part of the model. *)
Fixpoint summarize_chunks (idx : nat) (chunks : list str)
         (partial_summaries : list str) : IO (list str) :=
  match chunks with
  | [] => ret partial_summaries
  | chunk :: rest =>
      partial_summary <- _call_mistral_summary chunk ;;
      summarize_chunks (S idx) rest
        (partial_summaries
         ++ [lit "Chunk " ++ of_nat idx ++ lit " summary:" ++ nl
             ++ partial_summary])
  end.

Definition final_messages_text (partial_summaries : list str) : str :=
  let combined_summaries_text := join (nl ++ nl) partial_summaries in
  lit "You have been given summaries of different parts of a long meeting. "
  ++ lit "Please combine them into ONE overall meeting summary with the "
  ++ lit "same structured format:" ++ nl ++ nl
  ++ lit "1. Overview (2" ++ en_dash ++ lit "3 sentences)" ++ nl
  ++ lit "2. Key decisions (bullet points)" ++ nl
  ++ lit "3. Action items (bullet points)" ++ nl ++ nl
  ++ lit "Here are the partial summaries:" ++ nl ++ nl
  ++ combined_summaries_text.

Definition NO_TRANSCRIPT : str :=
  lit "No transcript content provided to summarize.".

Definition summarize_meeting_with_mistral (transcript : str)
           (max_direct_chars : Z) : IO str :=
  let transcript := strip transcript in
  if is_empty transcript then ret NO_TRANSCRIPT
  else if len transcript <=? max_direct_chars then
    _call_mistral_summary transcript
  else
    chunks <- _split_text transcript max_direct_chars 300 ;;
    partial_summaries <- summarize_chunks 1 chunks [] ;;
    final_summary <-
      _call_mistral_summary (final_messages_text partial_summaries) ;;
    ret final_summary.

(** ** transcription.py *)

Definition transcribe_audio_path (file_path : str) : IO str :=
  try_except
    (call (fun h =>
             transcriptions_create w h (OPENAI_WHISPER_MODEL w) file_path)
          (Transcription (OPENAI_WHISPER_MODEL w) file_path))
    (fun e =>
       raise (lit "Failed to transcribe audio from path '" ++ file_path
              ++ lit "': " ++ e)).

(** ** vector_store.py *)

Definition _split_transcript_to_documents (transcript : str)
           (chunk_size chunk_overlap : Z) : IO (list Document) :=
  let base_doc :=
    mkDocument transcript [(lit "source", lit "meeting_transcript")] in
  lift (split_documents w chunk_size chunk_overlap SEPARATORS [base_doc]).

Definition build_vector_store_from_transcript (transcript : str)
  : IO (FAISS * OpenAIEmbeddings) :=
  docs <- _split_transcript_to_documents transcript 1000 200 ;;
  let embeddings := mkOpenAIEmbeddings (OPENAI_EMBEDDING_MODEL w) in
  vector_store <-
    call (fun h => faiss_from_documents w h docs embeddings)
         (FromDocuments docs embeddings) ;;
  ret (vector_store, embeddings).

Definition build_retriever (vector_store : FAISS) (k : Z) : Retriever :=
  mkRetriever vector_store k.

(** ** qa.py *)

Definition NOTHING_FOUND : str :=
  lit "I couldn't find anything in the transcript related to that question.".

Definition answer_messages (context_text question : str) : list Message :=
  [ mkMessage (lit "system")
      (lit "You are a helpful Meeting Assistant. "
       ++ lit "You answer questions ONLY using the provided meeting context. "
       ++ lit "If the answer is not in the context, say you don't know.");
    mkMessage (lit "user")
      (lit "Here is context from the meeting transcript:" ++ nl ++ nl
       ++ context_text ++ nl ++ nl
       ++ lit "Using ONLY this context, answer the following question:"
       ++ nl ++ nl
       ++ lit "Question: " ++ question) ].

Definition answer_question_with_mistral (question : str)
           (retriever : Retriever) (max_context_chars : Z) : IO str :=
  _ensure_mistral_client ;;;
  docs <- call (fun h => retriever_invoke w h retriever question)
               (Invoke retriever question) ;;
  match docs with
  | [] => ret NOTHING_FOUND
  | _ :: _ =>
      let context_text := _format_context docs max_context_chars in
      let messages := answer_messages context_text question in
      response <- try_except (mistral_chat_complete messages)
        (fun e => raise (lit "Failed to get answer from Mistral: " ++ e)) ;;
      answer_text <- try_except (first_choice_content response)
        (fun e =>
           raise (lit "Unexpected response format from Mistral: " ++ e)) ;;
      ret answer_text
  end.

(** ** gradio_app.py *)

Definition NO_AUDIO : str := lit "No audio file uploaded yet.".

Definition TRUNCATED : str := nl ++ nl ++ lit "...[truncated]".

(** [audio_path] is the path of the uploaded file, or [None]. *)
Definition process_audio (audio_path : option str)
  : IO (str * str * option Retriever) :=
  match audio_path with
  | None => ret (NO_AUDIO, [], None)
  | Some path =>
      if is_empty path then ret (NO_AUDIO, [], None)
      else
        transcribed <- attempt (transcribe_audio_path path) ;;
        match transcribed with
        | Raise e => ret (lit "Error during transcription: " ++ e, [], None)
        | Ok transcript =>
            summary <- try_except
              (summarize_meeting_with_mistral transcript 5000)
              (fun e => ret (lit "Error during summarization: " ++ e)) ;;
            built <- attempt
              (stores <- build_vector_store_from_transcript transcript ;;
               let (vector_store, embeddings) := stores in
               ret (build_retriever vector_store 4)) ;;
            match built with
            | Raise e =>
                let preview := slice_to 1500 transcript in
                let error_msg :=
                  lit "Error while building vector store / retriever: " ++ e
                in
                ret (preview, error_msg, None)
            | Ok retriever =>
                let transcript_preview := slice_to 1500 transcript in
                let transcript_preview :=
                  if len transcript >? 1500
                  then transcript_preview ++ TRUNCATED
                  else transcript_preview in
                ret (transcript_preview, summary, Some retriever)
            end
        end
  end.

Definition RUN_FIRST : str :=
  lit "Please run **Transcribe & Summarize** first so I can build the meeting memory.".

Definition ENTER_QUESTION : str :=
  lit "Please enter a question about the meeting.".

Definition answer_question_ui (question : str) (retriever : option Retriever)
  : IO str :=
  match retriever with
  | None => ret RUN_FIRST
  | Some retriever =>
      if is_empty question || is_empty (strip question)
      then ret ENTER_QUESTION
      else
        try_except (answer_question_with_mistral question retriever 4000)
          (fun e => ret (lit "Error while answering your question: " ++ e))
  end.

End Program.

(** ** Specification vocabulary *)

(** The formatted entries of the chunks whose stripped text is not empty,
    in the order of [docs]. *)
Definition candidates (docs : list Document) : list str :=
  map bullet
      (filter (fun t => negb (is_empty t))
              (map (fun d => strip (page_content d)) docs)).

(** The longest prefix of [entries] whose cumulative length, starting at
    [current_len], stays within [max_chars]. *)
Fixpoint take_within (current_len max_chars : Z) (entries : list str)
  : list str :=
  match entries with
  | [] => []
  | c :: cs =>
      if current_len + len c >? max_chars then []
      else c :: take_within (current_len + len c) max_chars cs
  end.

(** The chunk text is blank: it strips to the empty string. *)
Definition blank (d : Document) : Prop := strip (page_content d) = [].

(** The request and the reply of a chat completion event. *)
Definition event_request (e : Event) : list Message :=
  match e with ChatComplete _ messages _ => messages | _ => [] end.

Definition event_reply (e : Event) : str :=
  match e with
  | ChatComplete _ _ (Ok (mkChatResponse (c :: _))) => c
  | _ => []
  end.

(** The entries of [partial_summaries] for the replies to the chunks
    numbered from [idx]. *)
Fixpoint labelled (idx : nat) (replies : list str) : list str :=
  match replies with
  | [] => []
  | r :: rs =>
      (lit "Chunk " ++ of_nat idx ++ lit " summary:" ++ nl ++ r)
      :: labelled (S idx) rs
  end.

(** ** The text splitter of the examples

    [RecursiveCharacterTextSplitter] is not code of the repository: the
    program imports it from langchain_text_splitters, and every theorem
    below holds for any splitter of the [World].  The examples run the
    algorithm of the library (its [TextSplitter] and
    [RecursiveCharacterTextSplitter] classes with their defaults:
    [len] as length function, separators kept at the start of the piece
    that follows them, chunks stripped), so that what they show is what the
    program does. *)

Module RecursiveCharacterTextSplitter.

(** [str(n)] for an [int] *)
Definition of_int (n : Z) : str :=
  if n <? 0 then lit "-" ++ of_nat (Z.to_nat (- n)) else of_nat (Z.to_nat n).

Definition nonempty {A} (l : list A) : bool :=
  match l with [] => false | _ :: _ => true end.

Fixpoint starts_with (sep text : str) : bool :=
  match sep, text with
  | [], _ => true
  | _ :: _, [] => false
  | a :: sep', c :: text' => (a =? c)%N && starts_with sep' text'
  end.

(** [re.search(re.escape(sep), text)] *)
Fixpoint occurs (sep text : str) : bool :=
  starts_with sep text
  || match text with
     | [] => false
     | _ :: text' => occurs sep text'
     end.

(** The pieces of [text] between the matches of a separator that is not
    empty, found from left to right without overlap; [skip] counts the
    characters of the current match still to pass and [piece] holds the
    current piece, last character first. *)
Fixpoint pieces (sep text : str) (skip : nat) (piece : str) : list str :=
  match text with
  | [] => [rev_append piece []]
  | c :: rest =>
      match skip with
      | S k => pieces sep rest k piece
      | O =>
          if starts_with sep text
          then rev_append piece [] :: pieces sep rest (length sep - 1) []
          else pieces sep rest 0 (c :: piece)
      end
  end.

(** [_split_text_with_regex(text, re.escape(separator), keep_separator=True)]:
    the text before the first match, then each match with the text that
    follows it; empty pieces are dropped. *)
Definition _split_text_with_regex (text separator : str) : list str :=
  let splits :=
    match separator with
    | [] => map (fun c => [c]) text
    | _ :: _ =>
        match pieces separator text 0 [] with
        | [] => []
        | first :: following =>
            first :: map (fun t => separator ++ t) following
        end
    end in
  filter (fun piece => negb (is_empty piece)) splits.

(** [_join_docs]: the chunk to add, or none when it strips to nothing. *)
Definition _join_docs (docs : list str) (separator : str) : list str :=
  let text := strip (join separator docs) in
  if is_empty text then [] else [text].

(** [separator_len if condition else 0] *)
Definition separator_len_if (separator : str) (condition : bool) : Z :=
  if condition then len separator else 0.

(** The [while] loop of [_merge_splits], which drops pieces from the front
    of [current_doc]; [current_doc[0]] raises on the empty list. *)
Fixpoint pop_front (chunk_size chunk_overlap : Z) (separator : str)
         (_len : Z) (current_doc : list str) (total : Z)
  : result (list str * Z) :=
  if (total >? chunk_overlap)
     || ((total + _len + separator_len_if separator (nonempty current_doc)
          >? chunk_size)
         && (total >? 0))
  then
    match current_doc with
    | [] => Raise (lit "list index out of range")
    | first :: rest =>
        pop_front chunk_size chunk_overlap separator _len rest
                  (total
                   - (len first + separator_len_if separator (nonempty rest)))
    end
  else Ok (current_doc, total).

(** The [for d in splits] loop of [_merge_splits] and what follows it. *)
Fixpoint merge_loop (chunk_size chunk_overlap : Z) (separator : str)
         (splits docs current_doc : list str) (total : Z)
  : result (list str) :=
  match splits with
  | [] => Ok (docs ++ _join_docs current_doc separator)
  | d :: rest =>
      let _len := len d in
      let append docs current_doc total :=
        let current_doc := current_doc ++ [d] in
        merge_loop chunk_size chunk_overlap separator rest docs current_doc
                   (total + _len
                    + separator_len_if separator (1 <? length current_doc)%nat)
      in
      if (total + _len + separator_len_if separator (nonempty current_doc)
          >? chunk_size)
         && nonempty current_doc
      then
        let docs := docs ++ _join_docs current_doc separator in
        match pop_front chunk_size chunk_overlap separator _len
                        current_doc total with
        | Raise e => Raise e
        | Ok (current_doc, total) => append docs current_doc total
        end
      else append docs current_doc total
  end.

Definition _merge_splits (chunk_size chunk_overlap : Z)
           (splits : list str) (separator : str) : result (list str) :=
  merge_loop chunk_size chunk_overlap separator splits [] [] 0.

(** The [for s in splits] loop of [_split_text] and what follows it;
    [recur] splits a long piece with the separators that remain, and is
    absent when none remains.  Separators are kept, so pieces are merged
    with the empty separator. *)
Fixpoint split_loop (chunk_size chunk_overlap : Z)
         (recur : option (str -> result (list str)))
         (splits final_chunks _good_splits : list str)
  : result (list str) :=
  let flush :=
    if nonempty _good_splits
    then match _merge_splits chunk_size chunk_overlap _good_splits [] with
         | Raise e => Raise e
         | Ok merged_text => Ok (final_chunks ++ merged_text)
         end
    else Ok final_chunks in
  match splits with
  | [] => flush
  | s :: rest =>
      if len s <? chunk_size
      then split_loop chunk_size chunk_overlap recur rest final_chunks
                      (_good_splits ++ [s])
      else
        match flush with
        | Raise e => Raise e
        | Ok final_chunks =>
            match recur with
            | None =>
                split_loop chunk_size chunk_overlap recur rest
                           (final_chunks ++ [s]) []
            | Some split_again =>
                match split_again s with
                | Raise e => Raise e
                | Ok other_info =>
                    split_loop chunk_size chunk_overlap recur rest
                               (final_chunks ++ other_info) []
                end
            end
        end
  end.

(** [_split_text(text, separators)]: the separator is the first one found
    in the text (or the empty one), with the separators after it for the
    long pieces; when none is found it is the last one. *)
Fixpoint _split_text (chunk_size chunk_overlap : Z) (separators : list str)
         (text : str) {struct separators} : result (list str) :=
  match separators with
  | [] => Raise (lit "list index out of range")
  | s :: rest =>
      let run recur :=
        split_loop chunk_size chunk_overlap recur
                   (_split_text_with_regex text s) [] [] in
      if is_empty s then run None
      else if occurs s text
      then match rest with
           | [] => run None
           | _ :: _ => run (Some (_split_text chunk_size chunk_overlap rest))
           end
      else match rest with
           | [] => run None
           | _ :: _ => _split_text chunk_size chunk_overlap rest text
           end
  end.

(** The checks of the constructor. *)
Definition check_sizes (chunk_size chunk_overlap : Z) : result unit :=
  if chunk_size <=? 0
  then Raise (lit "chunk_size must be > 0, got " ++ of_int chunk_size)
  else if chunk_overlap <? 0
  then Raise (lit "chunk_overlap must be >= 0, got " ++ of_int chunk_overlap)
  else if chunk_overlap >? chunk_size
  then Raise (lit "Got a larger chunk overlap (" ++ of_int chunk_overlap
              ++ lit ") than chunk size (" ++ of_int chunk_size
              ++ lit "), should be smaller.")
  else Ok tt.

(** [separators or ["\n\n", "\n", " ", ""]] *)
Definition separators_or_default (separators : list str) : list str :=
  match separators with
  | [] => [nl ++ nl; nl; lit " "; []]
  | _ :: _ => separators
  end.

(** [RecursiveCharacterTextSplitter(chunk_size=..., chunk_overlap=...,
    separators=...).split_text(text)] *)
Definition split_text (chunk_size chunk_overlap : Z) (separators : list str)
           (text : str) : result (list str) :=
  match check_sizes chunk_size chunk_overlap with
  | Raise e => Raise e
  | Ok _ =>
      _split_text chunk_size chunk_overlap (separators_or_default separators)
                  text
  end.

(** [create_documents]: the chunks of each text, each with the metadata of
    its document. *)
Fixpoint create_documents (chunk_size chunk_overlap : Z)
         (separators : list str) (documents : list Document)
  : result (list Document) :=
  match documents with
  | [] => Ok []
  | d :: rest =>
      match _split_text chunk_size chunk_overlap separators
                        (page_content d) with
      | Raise e => Raise e
      | Ok chunks =>
          match create_documents chunk_size chunk_overlap separators rest with
          | Raise e => Raise e
          | Ok others =>
              Ok (map (fun c => mkDocument c (metadata d)) chunks ++ others)
          end
      end
  end.

(** [RecursiveCharacterTextSplitter(...).split_documents(documents)] *)
Definition split_documents (chunk_size chunk_overlap : Z)
           (separators : list str) (documents : list Document)
  : result (list Document) :=
  match check_sizes chunk_size chunk_overlap with
  | Raise e => Raise e
  | Ok _ =>
      create_documents chunk_size chunk_overlap
                       (separators_or_default separators) documents
  end.

End RecursiveCharacterTextSplitter.

(** ** A concrete world for examples

    The services are stand-ins: a chat client that numbers its replies and
    a vector store that keeps the documents it is given.  The splitter is
    the one above. *)

Definition demo_client : Mistral :=
  mkMistral (fun h _ _ =>
               Ok (mkChatResponse [lit "reply " ++ of_nat (length h)])).

(** A client whose every call raises. *)
Definition failing_client : Mistral :=
  mkMistral (fun _ _ _ => Raise (lit "quota exceeded")).

Definition demo_world (client : option Mistral) (heard : result str)
           (found : result (list Document)) (index_ok : bool) : World :=
  mkWorld (lit "whisper-1") (lit "text-embedding-3-small")
          (lit "mistral-small-latest") client
          (fun _ _ _ => heard)
          RecursiveCharacterTextSplitter.split_text
          RecursiveCharacterTextSplitter.split_documents
          (fun _ docs emb =>
             if index_ok then Ok (mkFAISS docs emb)
             else Raise (lit "embedding service unavailable"))
          (fun _ _ _ => found).

Definition doc (text : string) : Document := mkDocument (lit text) [].

(** A transcript of 12000 characters without white space. *)
Definition long_transcript : str := repeat 97%N (Z.to_nat 12000).

(** A transcript of two paragraphs of 3000 characters. *)
Definition two_paragraphs : str :=
  repeat 97%N (Z.to_nat 3000) ++ nl ++ nl ++ repeat 98%N (Z.to_nat 3000).

Definition short_transcript : str :=
  lit "Alice: We decided to ship v2 on Friday.".

(** A transcript of 1600 characters. *)
Definition medium_transcript : str := repeat 98%N (Z.to_nat 1600).

(** ** qa_main.py

    The script: transcribe, summarise, build the index, then ask the two
    example questions.  Nothing is caught, so an exception of any step ends
    the script.  What it prints to the console is not part of the model. *)

Module QaMain.

Definition audio_path : str := lit "min_meeting.mp3".

Definition example_questions : list str :=
  [ lit "What was the main topic of this discussion?";
    lit "What did they say about vector indices or retrievers?" ].

(** The loop [for q in example_questions]. *)
Fixpoint ask_all (w : World) (retriever : Retriever) (questions : list str)
  : IO unit :=
  match questions with
  | [] => ret tt
  | q :: rest =>
      answer <- answer_question_with_mistral w q retriever 4000 ;;
      ask_all w retriever rest
  end.

Definition main (w : World) : IO unit :=
  transcript <- transcribe_audio_path w audio_path ;;
  summary <- summarize_meeting_with_mistral w transcript 5000 ;;
  stores <- build_vector_store_from_transcript w transcript ;;
  let (vector_store, embeddings) := stores in
  let retriever := build_retriever vector_store 4 in
  ask_all w retriever example_questions.

End QaMain.

(** ** Vocabulary for failures *)

(** The service call of the event did not give a usable answer: it raised,
    or the chat response has no choice. *)
Definition event_failed (e : Event) : bool :=
  match e with
  | Transcription _ _ (Raise _) => true
  | ChatComplete _ _ (Raise _) => true
  | ChatComplete _ _ (Ok (mkChatResponse [])) => true
  | FromDocuments _ _ (Raise _) => true
  | Invoke _ _ (Raise _) => true
  | _ => false
  end.

Definition raised {A} (r : result A) : bool :=
  match r with Raise _ => true | Ok _ => false end.

(** No event follows a failed one. *)
Fixpoint failure_is_last (evs : list Event) : bool :=
  match evs with
  | [] => true
  | e :: rest =>
      if event_failed e
      then match rest with [] => true | _ :: _ => false end
      else failure_is_last rest
  end.

(** A run stops at the first failed call and raises. *)
Definition fail_fast {A} (run : list Event * result A) : Prop :=
  failure_is_last (fst run) = true
  /\ (existsb event_failed (fst run) = true -> raised (snd run) = true).

(** The event is a chat completion on a summary prompt with the configured
    model. *)
Definition summary_request (w : World) (e : Event) : Prop :=
  exists prompt_content out,
    e = ChatComplete (MISTRAL_CHAT_MODEL w) (summary_messages prompt_content)
                     out.

(** What a chat call gives to its caller, with the prefixes of the two
    error messages. *)
Definition chat_outcome (call_failed bad_format : str)
           (out : result ChatResponse) : result str :=
  match out with
  | Ok (mkChatResponse (c :: _)) => Ok c
  | Ok (mkChatResponse []) =>
      Raise (bad_format ++ lit "list index out of range")
  | Raise e => Raise (call_failed ++ e)
  end.

(** A client that answers the first request of a session and fails
    afterwards. *)
Definition flaky_client : Mistral :=
  mkMistral (fun h _ _ =>
               match h with
               | [] => Ok (mkChatResponse [lit "first reply"])
               | _ :: _ => Raise (lit "quota exceeded")
               end).

(** * Properties *)

(** Unfolds the operations of [IO] down to functions of the history. *)
Ltac io_unfold :=
  unfold bind, try_except, attempt, call, lift, ret, raise; cbn beta zeta.

(** ** Strings *)

Lemma len_app (s t : str) : len (s ++ t) = len s + len t.
Proof. unfold len. rewrite length_app. lia. Qed.

Lemma is_empty_true (s : str) : is_empty s = true <-> s = [].
Proof. destruct s; simpl; split; congruence. Qed.

Lemma lstrip_whitespace (s : str) :
  forallb isspace s = true -> lstrip s = [].
Proof.
  induction s as [|c s IH]; simpl; [reflexivity|].
  intros H. apply andb_prop in H as [Hc Hs]. rewrite Hc. auto.
Qed.

Lemma lstrip_nil_inv (s : str) :
  lstrip s = [] -> forallb isspace s = true.
Proof.
  induction s as [|c s IH]; simpl; [reflexivity|].
  destruct (isspace c) eqn:Hc; simpl; [exact IH | discriminate].
Qed.

Lemma strip_whitespace (s : str) :
  forallb isspace s = true -> strip s = [].
Proof.
  intros H. unfold strip. rewrite (lstrip_whitespace s H). reflexivity.
Qed.

Lemma rstrip_nil_inv (s : str) :
  rstrip s = [] -> forallb isspace s = true.
Proof.
  induction s as [|c s IH]; simpl; [reflexivity|].
  destruct (rstrip s) as [|k ks]; [|discriminate].
  destruct (isspace c); [intros _; now apply IH | discriminate].
Qed.

Lemma lstrip_head (s : str) (c : N) (s' : str) :
  lstrip s = c :: s' -> isspace c = false.
Proof.
  induction s as [|a s IH]; simpl; [discriminate|].
  destruct (isspace a) eqn:Ha; [exact IH|].
  intros H. injection H as <- _. exact Ha.
Qed.

Lemma lstrip_snoc (s : str) (c : N) :
  lstrip (s ++ [c])
  = match lstrip s with
    | [] => if isspace c then [] else [c]
    | kept => kept ++ [c]
    end.
Proof.
  induction s as [|a s IH]; simpl.
  - destruct (isspace c); reflexivity.
  - destruct (isspace a); [exact IH | reflexivity].
Qed.

(** [rstrip] is [lstrip] read from the right. *)
Lemma rstrip_rev (s : str) : rstrip s = rev (lstrip (rev s)).
Proof.
  induction s as [|c s IH]; [reflexivity|].
  cbn [rstrip rev]. rewrite lstrip_snoc, IH.
  destruct (lstrip (rev s)) as [|k ks] eqn:Hk.
  - simpl. destruct (isspace c); reflexivity.
  - rewrite rev_app_distr. simpl.
    destruct (rev ks ++ [k]) as [|x xs] eqn:Hx; [|reflexivity].
    destruct (rev ks); discriminate Hx.
Qed.

Lemma strip_nil_inv (s : str) :
  strip s = [] -> forallb isspace s = true.
Proof.
  unfold strip. intros H. apply rstrip_nil_inv in H.
  apply lstrip_nil_inv.
  destruct (lstrip s) as [|c s'] eqn:Hl; [reflexivity|].
  apply lstrip_head in Hl. simpl in H. rewrite Hl in H. discriminate.
Qed.

(** ** The context assembler *)

Lemma format_loop_take_within (docs : list Document) (max_chars : Z) :
  forall parts current_len,
    format_loop docs max_chars parts current_len
    = parts ++ take_within current_len max_chars (candidates docs).
Proof.
  induction docs as [|doc rest IH]; intros parts cur; simpl.
  - now rewrite app_nil_r.
  - unfold candidates in *. simpl.
    destruct (is_empty (strip (page_content doc))) eqn:He; simpl.
    + apply IH.
    + destruct (cur + len (bullet (strip (page_content doc))) >? max_chars).
      * now rewrite app_nil_r.
      * rewrite IH, <- app_assoc. reflexivity.
Qed.

Lemma take_within_prefix (entries : list str) :
  forall cur max_chars,
  exists n : nat,
    (n <= length entries)%nat /\
    take_within cur max_chars entries = firstn n entries /\
    (forall m : nat, (1 <= m <= n)%nat ->
                     cur + len (concat (firstn m entries)) <= max_chars) /\
    ((n < length entries)%nat ->
     max_chars < cur + len (concat (firstn (S n) entries))).
Proof.
  induction entries as [|c cs IH]; intros cur max_chars.
  - exists 0%nat. simpl. repeat split; try lia.
  - simpl. destruct (cur + len c >? max_chars) eqn:Hgt.
    + exists 0%nat. simpl. repeat split; try lia.
      intros _. rewrite app_nil_r. lia.
    + destruct (IH (cur + len c) max_chars) as (n & Hn & Ht & Hin & Hmax).
      exists (S n). simpl. repeat split.
      * lia.
      * now rewrite Ht.
      * intros m Hm. destruct m as [|m]; [lia|]. simpl. rewrite len_app.
        destruct m as [|m].
        -- simpl. unfold len at 2. simpl. lia.
        -- specialize (Hin (S m)). lia.
      * intros Hlt. rewrite len_app.
        assert (Hlt' : (n < length cs)%nat) by lia.
        specialize (Hmax Hlt'). simpl in Hmax. lia.
Qed.

Lemma candidates_nil_iff (docs : list Document) :
  candidates docs = [] <-> Forall blank docs.
Proof.
  unfold candidates, blank. induction docs as [|d ds IH]; simpl.
  - split; auto.
  - destruct (is_empty (strip (page_content d))) eqn:He; simpl.
    + apply is_empty_true in He. rewrite IH. split.
      * intros H. now constructor.
      * intros H. now inversion H.
    + split; [discriminate|]. intros H. inversion H as [|? ? Hd _]; subst.
      rewrite Hd in He. discriminate.
Qed.

Lemma candidates_bullets (docs : list Document) :
  Forall (fun c => exists text, c = bullet text) (candidates docs).
Proof.
  unfold candidates. apply Forall_forall. intros c Hc.
  apply in_map_iff in Hc as (t & <- & _). now exists t.
Qed.

Lemma bullet_concat_not_sentinel (text : str) (rest : list str) :
  concat (bullet text :: rest) <> NO_CONTEXT.
Proof. simpl. unfold bullet, NO_CONTEXT. simpl. discriminate. Qed.

Lemma format_context_sentinel_iff_no_parts (docs : list Document) (max_chars : Z) :
  _format_context docs max_chars = NO_CONTEXT
  <-> format_loop docs max_chars [] 0 = [].
Proof.
  unfold _format_context. rewrite format_loop_take_within. simpl.
  pose proof (candidates_bullets docs) as Hb.
  destruct (candidates docs) as [|c cs]; simpl; [tauto|].
  destruct (len c >? max_chars); [tauto|].
  inversion Hb as [|? ? [text ->] _]; subst.
  split; [|discriminate].
  intros H. exfalso. revert H. apply bullet_concat_not_sentinel.
Qed.

(** C2: the context is the concatenation of a prefix of the formatted
    non-blank chunks, whole and in the given order; every included chunk
    keeps the cumulative length within [max_chars], the loop stops at the
    first chunk that would pass it, and when at least one chunk is included
    the returned string is these chunks and is at most [max_chars] long. *)
Theorem format_context_whole_chunks_within_budget :
  forall (docs : list Document) (max_chars : Z),
  exists n : nat,
    (n <= length (candidates docs))%nat /\
    format_loop docs max_chars [] 0 = firstn n (candidates docs) /\
    (forall m : nat, (1 <= m <= n)%nat ->
       len (concat (firstn m (candidates docs))) <= max_chars) /\
    ((n < length (candidates docs))%nat ->
       max_chars < len (concat (firstn (S n) (candidates docs)))) /\
    (firstn n (candidates docs) <> [] ->
       _format_context docs max_chars = concat (firstn n (candidates docs))
       /\ len (_format_context docs max_chars) <= max_chars).
Proof.
  intros docs max_chars.
  destruct (take_within_prefix (candidates docs) 0 max_chars)
    as (n & Hn & Ht & Hin & Hmax).
  exists n. split; [exact Hn|].
  assert (Hloop : format_loop docs max_chars [] 0 = firstn n (candidates docs)).
  { rewrite format_loop_take_within. simpl. exact Ht. }
  split; [exact Hloop|]. split; [|split].
  - intros m Hm. specialize (Hin m Hm). lia.
  - intros Hlt. specialize (Hmax Hlt). lia.
  - intros Hne. unfold _format_context. rewrite Hloop.
    destruct (firstn n (candidates docs)) as [|p ps] eqn:Hparts;
      [congruence|].
    split; [reflexivity|].
    rewrite <- Hparts.
    destruct n as [|n]; [simpl in Hparts; discriminate|].
    specialize (Hin (S n)). lia.
Qed.

Lemma format_context_whole_chunks_within_budget_witness :
  _format_context [doc "hello"; doc "  "; doc " ab "; doc "tail"] 13
  = lit "- hello" ++ nl ++ lit "- ab" ++ nl
  /\ len (_format_context [doc "hello"; doc "  "; doc " ab "; doc "tail"] 13)
     <= 13.
Proof.
  split; [reflexivity|].
  destruct (format_context_whole_chunks_within_budget
              [doc "hello"; doc "  "; doc " ab "; doc "tail"] 13)
    as (n & _ & Hloop & _ & _ & Hlen).
  apply Hlen. rewrite <- Hloop. discriminate.
Defined.

Example format_context_stops_at_budget :
  _format_context [doc "hello"; doc "  "; doc " ab "; doc "tail"] 12
  = lit "- hello" ++ nl.
Proof. reflexivity. Qed.

Example format_context_empty_input :
  _format_context [] 4000 = NO_CONTEXT.
Proof. reflexivity. Qed.

(** C8 as stated fails: a chunk with text survives stripping, yet the
    sentinel is returned because its entry does not fit in [max_chars]. *)
Lemma format_context_sentinel_with_text :
  _format_context [doc "hello"] 3 = NO_CONTEXT
  /\ strip (page_content (doc "hello")) = lit "hello"
  /\ ~ Forall blank [doc "hello"].
Proof.
  split; [reflexivity|]. split; [reflexivity|].
  intros H. inversion H as [|? ? Hb _]. discriminate Hb.
Qed.

(** C8, amended: when every chunk is blank (the empty list included) the
    sentinel is returned; the sentinel is returned exactly when no chunk is
    included, that is when every chunk is blank or the entry of the first
    chunk that is not blank is longer than [max_chars]. *)
Theorem format_context_sentinel_iff :
  forall (docs : list Document) (max_chars : Z),
    (Forall blank docs -> _format_context docs max_chars = NO_CONTEXT)
    /\ (_format_context docs max_chars = NO_CONTEXT
        <-> format_loop docs max_chars [] 0 = [])
    /\ (format_loop docs max_chars [] 0 = []
        <-> match candidates docs with
            | [] => True
            | c :: _ => max_chars < len c
            end)
    /\ (candidates docs = [] <-> Forall blank docs).
Proof.
  intros docs max_chars.
  assert (Hloop : format_loop docs max_chars [] 0 = []
                  <-> match candidates docs with
                      | [] => True
                      | c :: _ => max_chars < len c
                      end).
  { rewrite format_loop_take_within. simpl.
    destruct (candidates docs) as [|c cs]; simpl; [tauto|].
    destruct (len c >? max_chars) eqn:Hgt.
    - split; [intros _; lia | reflexivity].
    - split; [discriminate | intros H; exfalso; lia]. }
  repeat split.
  - intros Hb. apply format_context_sentinel_iff_no_parts, Hloop.
    apply candidates_nil_iff in Hb. now rewrite Hb.
  - apply format_context_sentinel_iff_no_parts.
  - apply format_context_sentinel_iff_no_parts.
  - apply Hloop.
  - apply Hloop.
  - apply candidates_nil_iff.
  - apply candidates_nil_iff.
Qed.

Lemma format_context_sentinel_iff_witness :
  Forall blank [doc "   "; doc ""]
  /\ _format_context [doc "   "; doc ""] 4000 = NO_CONTEXT.
Proof.
  assert (Hb : Forall blank [doc "   "; doc ""]).
  { repeat constructor. }
  split; [exact Hb|].
  exact (proj1 (format_context_sentinel_iff [doc "   "; doc ""] 4000) Hb).
Defined.

(** ** The summariser *)

(** What one summary request does when the client is configured: exactly
    one chat completion call, whatever its outcome. *)
Lemma call_mistral_summary_run (w : World) (client : Mistral)
      (prompt_content : str) (h : list Event) :
  mistral_client w = Some client ->
  _call_mistral_summary w prompt_content h
  = let messages := summary_messages prompt_content in
    let out := chat_complete client h (MISTRAL_CHAT_MODEL w) messages in
    ([ChatComplete (MISTRAL_CHAT_MODEL w) messages out],
     match out with
     | Ok (mkChatResponse (c :: _)) => Ok c
     | Ok (mkChatResponse []) =>
         Raise (lit "Unexpected response format from Mistral: "
                ++ lit "list index out of range")
     | Raise e => Raise (lit "Failed to get summary from Mistral: " ++ e)
     end).
Proof.
  intros Hc.
  unfold _call_mistral_summary, _ensure_mistral_client, mistral_chat_complete.
  rewrite Hc. unfold first_choice_content. io_unfold. rewrite app_nil_r.
  destruct (chat_complete client h (MISTRAL_CHAT_MODEL w)
                          (summary_messages prompt_content))
    as [[[|c cs]]|e]; reflexivity.
Qed.

(** C7: a transcript that is empty or made of white space only gets the
    fixed message and no call is made. *)
Theorem summarize_blank_transcript :
  forall (w : World) (transcript : str) (max_direct_chars : Z)
         (h : list Event),
    forallb isspace transcript = true ->
    summarize_meeting_with_mistral w transcript max_direct_chars h
    = ([], Ok NO_TRANSCRIPT).
Proof.
  intros w transcript max_direct_chars h Hws.
  unfold summarize_meeting_with_mistral.
  rewrite (strip_whitespace transcript Hws). reflexivity.
Qed.

Lemma summarize_blank_transcript_witness :
  forallb isspace (lit "  " ++ nl ++ lit " ") = true
  /\ summarize_meeting_with_mistral
       (demo_world (Some demo_client) (Ok []) (Ok []) true)
       (lit "  " ++ nl ++ lit " ") 5000 []
     = ([], Ok NO_TRANSCRIPT).
Proof.
  split; [reflexivity|].
  apply (summarize_blank_transcript
           (demo_world (Some demo_client) (Ok []) (Ok []) true)
           (lit "  " ++ nl ++ lit " ") 5000 []).
  reflexivity.
Defined.

Example summarize_short_transcript :
  summarize_meeting_with_mistral
    (demo_world (Some demo_client) (Ok []) (Ok []) true)
    short_transcript 5000 []
  = ([ChatComplete (lit "mistral-small-latest")
                   (summary_messages short_transcript)
                   (Ok (mkChatResponse [lit "reply 0"]))],
     Ok (lit "reply 0")).
Proof. reflexivity. Qed.

Example summarize_long_transcript :
  map event_reply
      (fst (summarize_meeting_with_mistral
              (demo_world (Some demo_client) (Ok []) (Ok []) true)
              two_paragraphs 5000 []))
  = [lit "reply 0"; lit "reply 1"; lit "reply 2"]
  /\ snd (summarize_meeting_with_mistral
            (demo_world (Some demo_client) (Ok []) (Ok []) true)
            two_paragraphs 5000 [])
     = Ok (lit "reply 2").
Proof. split; vm_compute; reflexivity. Qed.

(** ** The answerer *)

(** C5: when the retrieval of a run returned no chunk, the run made this
    retrieval and nothing else, so no completion call, and it returned the
    fixed message. *)
Theorem answer_without_chunks :
  forall (w : World) (question : str) (retriever : Retriever)
         (max_context_chars : Z) (h : list Event),
    In (Invoke retriever question (Ok []))
       (fst (answer_question_with_mistral
               w question retriever max_context_chars h)) ->
    answer_question_with_mistral w question retriever max_context_chars h
    = ([Invoke retriever question (Ok [])], Ok NOTHING_FOUND)
    /\ forallb (fun e => negb (is_chat_complete e))
               (fst (answer_question_with_mistral
                       w question retriever max_context_chars h))
       = true.
Proof.
  intros w question retriever max_context_chars h.
  unfold answer_question_with_mistral, _ensure_mistral_client,
    mistral_chat_complete.
  destruct (mistral_client w) as [client|].
  - unfold first_choice_content. io_unfold. rewrite app_nil_r.
    destruct (retriever_invoke w h retriever question) as [[|d ds]|e].
    + intros _. split; reflexivity.
    + destruct (chat_complete client _ _ _) as [[[|c cs]]|e];
        cbn [fst app In];
        intros [H|[H|[]]]; discriminate H.
    + cbn [fst app In]. intros [H|[]]. discriminate H.
  - io_unfold. cbn [fst In]. intros [].
Qed.

Lemma answer_without_chunks_witness :
  answer_question_with_mistral
    (demo_world (Some demo_client) (Ok []) (Ok []) true)
    (lit "Who owns the release notes?")
    (build_retriever (mkFAISS [] (mkOpenAIEmbeddings (lit "m"))) 4) 4000 []
  = ([Invoke (build_retriever (mkFAISS [] (mkOpenAIEmbeddings (lit "m"))) 4)
             (lit "Who owns the release notes?") (Ok [])],
     Ok NOTHING_FOUND).
Proof.
  apply (answer_without_chunks
           (demo_world (Some demo_client) (Ok []) (Ok []) true)
           (lit "Who owns the release notes?")
           (build_retriever (mkFAISS [] (mkOpenAIEmbeddings (lit "m"))) 4)
           4000 []).
  left. reflexivity.
Defined.

(** C6: without a retriever the fixed guidance is returned and no service
    is called; with a retriever, an empty or white-space question gets the
    other fixed guidance, again without any call.  Neither case raises. *)
Theorem answer_question_ui_guidance :
  forall (w : World) (question : str) (h : list Event),
    answer_question_ui w question None h = ([], Ok RUN_FIRST)
    /\ (forall retriever : Retriever,
           forallb isspace question = true ->
           answer_question_ui w question (Some retriever) h
           = ([], Ok ENTER_QUESTION)).
Proof.
  intros w question h. split; [reflexivity|].
  intros retriever Hws. unfold answer_question_ui.
  rewrite (strip_whitespace question Hws). cbn [is_empty].
  rewrite orb_true_r. reflexivity.
Qed.

Lemma answer_question_ui_guidance_witness :
  forallb isspace (lit "   ") = true
  /\ answer_question_ui
       (demo_world None (Ok []) (Ok []) true) (lit "   ")
       (Some (build_retriever (mkFAISS [] (mkOpenAIEmbeddings (lit "m"))) 4))
       []
     = ([], Ok ENTER_QUESTION).
Proof.
  split; [reflexivity|].
  apply (proj2 (answer_question_ui_guidance
                  (demo_world None (Ok []) (Ok []) true) (lit "   ") [])).
  reflexivity.
Defined.

(** ** The upload callback *)

(** The run of [process_audio] once the transcription has succeeded: the
    summariser runs, then the index is built, whatever the summariser did. *)
Lemma process_audio_run (w : World) (path transcript : str)
      (h : list Event) :
  path <> [] ->
  transcriptions_create w h (OPENAI_WHISPER_MODEL w) path = Ok transcript ->
  process_audio w (Some path) h
  = let heard := Transcription (OPENAI_WHISPER_MODEL w) path (Ok transcript) in
    let summarized :=
      summarize_meeting_with_mistral w transcript 5000 (h ++ [heard]) in
    let built :=
      build_vector_store_from_transcript
        w transcript ((h ++ [heard]) ++ fst summarized) in
    (heard :: fst summarized ++ fst built,
     Ok match snd built with
        | Ok (vector_store, _) =>
            (slice_to 1500 transcript
             ++ (if len transcript >? 1500 then TRUNCATED else []),
             match snd summarized with
             | Ok summary => summary
             | Raise e => lit "Error during summarization: " ++ e
             end,
             Some (build_retriever vector_store 4))
        | Raise e =>
            (slice_to 1500 transcript,
             lit "Error while building vector store / retriever: " ++ e,
             None)
        end).
Proof.
  intros Hpath Hheard. unfold process_audio.
  destruct path as [|p path']; [contradiction|]. cbn [is_empty].
  set (path := p :: path') in *.
  unfold transcribe_audio_path. io_unfold. rewrite Hheard. cbn beta iota zeta.
  destruct (summarize_meeting_with_mistral
              w transcript 5000
              (h ++ [Transcription (OPENAI_WHISPER_MODEL w) path
                                   (Ok transcript)]))
    as [es rs].
  cbn [fst snd].
  destruct rs as [summary|e]; cbn [app]; rewrite ?app_nil_r;
    destruct (build_vector_store_from_transcript
                w transcript
                ((h ++ [Transcription (OPENAI_WHISPER_MODEL w) path
                                      (Ok transcript)]) ++ es))
      as [eb [[vs emb]|e']];
    cbn [fst snd app]; rewrite ?app_nil_r;
    try destruct (len transcript >? 1500); rewrite ?app_nil_r;
    reflexivity.
Qed.

(** C9: when the summariser raises, the index is still built from the
    transcript, after the summariser's calls; when the build succeeds the
    callback returns the preview, the error text in place of the summary,
    and the retriever over the built store. *)
Theorem process_audio_summarization_failure :
  forall (w : World) (path transcript : str) (h es : list Event) (e : str),
    path <> [] ->
    transcriptions_create w h (OPENAI_WHISPER_MODEL w) path = Ok transcript ->
    summarize_meeting_with_mistral
      w transcript 5000
      (h ++ [Transcription (OPENAI_WHISPER_MODEL w) path (Ok transcript)])
    = (es, Raise e) ->
    fst (process_audio w (Some path) h)
    = Transcription (OPENAI_WHISPER_MODEL w) path (Ok transcript)
      :: es
      ++ fst (build_vector_store_from_transcript
                w transcript
                ((h ++ [Transcription (OPENAI_WHISPER_MODEL w) path
                                      (Ok transcript)]) ++ es))
    /\ (forall (vector_store : FAISS) (embeddings : OpenAIEmbeddings),
           snd (build_vector_store_from_transcript
                  w transcript
                  ((h ++ [Transcription (OPENAI_WHISPER_MODEL w) path
                                        (Ok transcript)]) ++ es))
           = Ok (vector_store, embeddings) ->
           snd (process_audio w (Some path) h)
           = Ok (slice_to 1500 transcript
                 ++ (if len transcript >? 1500 then TRUNCATED else []),
                 lit "Error during summarization: " ++ e,
                 Some (build_retriever vector_store 4))).
Proof.
  intros w path transcript h es e Hpath Hheard Hsum.
  rewrite (process_audio_run w path transcript h Hpath Hheard).
  cbn zeta. rewrite Hsum. cbn [fst snd]. split; [reflexivity|].
  intros vector_store embeddings Hbuilt. rewrite Hbuilt. reflexivity.
Qed.

Lemma process_audio_summarization_failure_witness :
  summarize_meeting_with_mistral
    (demo_world None (Ok short_transcript) (Ok []) true)
    short_transcript 5000
    [Transcription (lit "whisper-1") (lit "meeting.mp3") (Ok short_transcript)]
  = ([], Raise CLIENT_NOT_CONFIGURED)
  /\ snd (process_audio (demo_world None (Ok short_transcript) (Ok []) true)
                        (Some (lit "meeting.mp3")) [])
     = Ok (short_transcript,
           lit "Error during summarization: " ++ CLIENT_NOT_CONFIGURED,
           Some (build_retriever
                   (mkFAISS
                      [mkDocument short_transcript
                                  [(lit "source", lit "meeting_transcript")]]
                      (mkOpenAIEmbeddings (lit "text-embedding-3-small")))
                   4)).
Proof.
  split; [reflexivity|].
  assert (Hpath : lit "meeting.mp3" <> []) by discriminate.
  exact (proj2 (process_audio_summarization_failure
                  (demo_world None (Ok short_transcript) (Ok []) true)
                  (lit "meeting.mp3") short_transcript [] []
                  CLIENT_NOT_CONFIGURED Hpath eq_refl eq_refl)
               _ _ eq_refl).
Defined.

(** C10: the preview is the first 1500 characters of the transcript.  When
    the index is built the marker follows it exactly when the transcript is
    longer than 1500 characters; when the build raises, the same first 1500
    characters are returned without the marker, with the error text. *)
Theorem process_audio_preview :
  forall (w : World) (path transcript : str) (h : list Event),
    path <> [] ->
    transcriptions_create w h (OPENAI_WHISPER_MODEL w) path = Ok transcript ->
    len (slice_to 1500 transcript) <= 1500
    /\ (len transcript <= 1500 -> slice_to 1500 transcript = transcript)
    /\ (forall (vector_store : FAISS) (embeddings : OpenAIEmbeddings),
           snd (build_vector_store_from_transcript
                  w transcript
                  ((h ++ [Transcription (OPENAI_WHISPER_MODEL w) path
                                        (Ok transcript)])
                     ++ fst (summarize_meeting_with_mistral
                               w transcript 5000
                               (h ++ [Transcription (OPENAI_WHISPER_MODEL w)
                                                    path (Ok transcript)]))))
           = Ok (vector_store, embeddings) ->
           exists summary : str,
             snd (process_audio w (Some path) h)
             = Ok (slice_to 1500 transcript
                   ++ (if len transcript >? 1500 then TRUNCATED else []),
                   summary,
                   Some (build_retriever vector_store 4)))
    /\ (forall e : str,
           snd (build_vector_store_from_transcript
                  w transcript
                  ((h ++ [Transcription (OPENAI_WHISPER_MODEL w) path
                                        (Ok transcript)])
                     ++ fst (summarize_meeting_with_mistral
                               w transcript 5000
                               (h ++ [Transcription (OPENAI_WHISPER_MODEL w)
                                                    path (Ok transcript)]))))
           = Raise e ->
           snd (process_audio w (Some path) h)
           = Ok (slice_to 1500 transcript,
                 lit "Error while building vector store / retriever: " ++ e,
                 None)).
Proof.
  intros w path transcript h Hpath Hheard.
  rewrite (process_audio_run w path transcript h Hpath Hheard).
  cbn zeta. cbn [snd]. repeat split.
  - unfold slice_to, len. rewrite length_firstn. lia.
  - unfold slice_to, len. intros Hle. apply firstn_all2. lia.
  - intros vector_store embeddings Hbuilt. rewrite Hbuilt.
    eexists. reflexivity.
  - intros e Hbuilt. rewrite Hbuilt. reflexivity.
Qed.

Lemma process_audio_preview_witness :
  (len medium_transcript = 1600
   /\ snd (process_audio
             (demo_world (Some demo_client) (Ok medium_transcript) (Ok [])
                         false)
             (Some (lit "meeting.mp3")) [])
      = Ok (slice_to 1500 medium_transcript,
            lit "Error while building vector store / retriever: "
            ++ lit "embedding service unavailable",
            None))
  /\ (exists summary,
         snd (process_audio
                (demo_world (Some demo_client) (Ok medium_transcript) (Ok [])
                            true)
                (Some (lit "meeting.mp3")) [])
         = Ok (slice_to 1500 medium_transcript ++ TRUNCATED,
               summary,
               Some (build_retriever
                       (mkFAISS
                          [mkDocument medium_transcript
                                      [(lit "source",
                                        lit "meeting_transcript")]]
                          (mkOpenAIEmbeddings (lit "text-embedding-3-small")))
                       4))).
Proof.
  assert (Hpath : lit "meeting.mp3" <> []) by discriminate.
  split.
  - split; [reflexivity|].
    refine (proj2 (proj2 (proj2 (process_audio_preview
              (demo_world (Some demo_client) (Ok medium_transcript) (Ok [])
                          false)
              (lit "meeting.mp3") medium_transcript [] Hpath eq_refl)))
              (lit "embedding service unavailable") _).
    vm_compute. reflexivity.
  - refine (proj1 (proj2 (proj2 (process_audio_preview
              (demo_world (Some demo_client) (Ok medium_transcript) (Ok [])
                          true)
              (lit "meeting.mp3") medium_transcript [] Hpath eq_refl)))
              _ (mkOpenAIEmbeddings (lit "text-embedding-3-small")) _).
    vm_compute. reflexivity.
Defined.

(** * Further properties *)

(** ** Runs that stop at the first failure *)

Lemma failure_is_last_app (e1 e2 : list Event) :
  existsb event_failed e1 = false ->
  failure_is_last (e1 ++ e2) = failure_is_last e2.
Proof.
  induction e1 as [|e e1 IH]; simpl; [reflexivity|].
  destruct (event_failed e); simpl; [discriminate | exact IH].
Qed.

Lemma fail_fast_ok_clean {A} (evs : list Event) (a : A) :
  fail_fast (evs, Ok a) -> existsb event_failed evs = false.
Proof.
  intros [_ H]. cbn [fst snd raised] in H.
  destruct (existsb event_failed evs); [now specialize (H eq_refl)|reflexivity].
Qed.

Lemma fail_fast_bind {A B} (m : IO A) (f : A -> IO B) (h : list Event) :
  fail_fast (m h) ->
  (forall a, fail_fast (f a (h ++ fst (m h)))) ->
  fail_fast (bind m f h).
Proof.
  unfold bind. destruct (m h) as [e1 [a|msg]]; cbn [fst]; intros Hm Hf.
  - specialize (Hf a). apply fail_fast_ok_clean in Hm.
    destruct (f a (h ++ e1)) as [e2 r2]. destruct Hf as [Hl Hr].
    split; cbn [fst snd] in *.
    + now rewrite failure_is_last_app.
    + rewrite existsb_app, Hm. exact Hr.
  - exact Hm.
Qed.

Lemma fail_fast_silent {A} (r : result A) : fail_fast (@nil Event, r).
Proof. split; [reflexivity | discriminate]. Qed.

(** The chat call shared by the summariser and the answerer. *)
Lemma chat_first_choice_run (w : World) (client : Mistral)
      (messages : list Message) (call_failed bad_format : str)
      (h : list Event) :
  mistral_client w = Some client ->
  (response <- try_except (mistral_chat_complete w messages)
     (fun e => raise (call_failed ++ e)) ;;
   text <- try_except (first_choice_content response)
     (fun e => raise (bad_format ++ e)) ;;
   ret text) h
  = ([ChatComplete (MISTRAL_CHAT_MODEL w) messages
                   (chat_complete client h (MISTRAL_CHAT_MODEL w) messages)],
     chat_outcome call_failed bad_format
                  (chat_complete client h (MISTRAL_CHAT_MODEL w) messages)).
Proof.
  intros Hc. unfold mistral_chat_complete. rewrite Hc.
  unfold first_choice_content. io_unfold.
  destruct (chat_complete client h (MISTRAL_CHAT_MODEL w) messages)
    as [[[|c cs]]|e]; reflexivity.
Qed.

Lemma fail_fast_chat (chat_model : str) (messages : list Message)
      (call_failed bad_format : str) (out : result ChatResponse) :
  fail_fast ([ChatComplete chat_model messages out],
             chat_outcome call_failed bad_format out).
Proof.
  destruct out as [[[|c cs]]|e]; split; cbn; congruence.
Qed.

Lemma call_mistral_summary_no_client (w : World) (prompt_content : str)
      (h : list Event) :
  mistral_client w = None ->
  _call_mistral_summary w prompt_content h = ([], Raise CLIENT_NOT_CONFIGURED).
Proof.
  intros Hc. unfold _call_mistral_summary, _ensure_mistral_client.
  rewrite Hc. reflexivity.
Qed.

Lemma call_mistral_summary_chat (w : World) (client : Mistral)
      (prompt_content : str) (h : list Event) :
  mistral_client w = Some client ->
  _call_mistral_summary w prompt_content h
  = ([ChatComplete (MISTRAL_CHAT_MODEL w) (summary_messages prompt_content)
        (chat_complete client h (MISTRAL_CHAT_MODEL w)
                       (summary_messages prompt_content))],
     chat_outcome (lit "Failed to get summary from Mistral: ")
                  (lit "Unexpected response format from Mistral: ")
                  (chat_complete client h (MISTRAL_CHAT_MODEL w)
                                 (summary_messages prompt_content))).
Proof.
  intros Hc. rewrite (call_mistral_summary_run w client _ _ Hc). cbn zeta.
  destruct (chat_complete client h (MISTRAL_CHAT_MODEL w)
                          (summary_messages prompt_content))
    as [[[|c cs]]|e]; reflexivity.
Qed.

Lemma call_mistral_summary_at_most_one (w : World) (prompt_content : str)
      (h : list Event) :
  (length (fst (_call_mistral_summary w prompt_content h)) <= 1)%nat.
Proof.
  destruct (mistral_client w) as [client|] eqn:Hc.
  - rewrite (call_mistral_summary_chat w client _ _ Hc). cbn. lia.
  - rewrite (call_mistral_summary_no_client w _ _ Hc). cbn. lia.
Qed.

Lemma fail_fast_call_mistral_summary (w : World) (prompt_content : str)
      (h : list Event) :
  fail_fast (_call_mistral_summary w prompt_content h).
Proof.
  destruct (mistral_client w) as [client|] eqn:Hc.
  - rewrite (call_mistral_summary_chat w client _ _ Hc). apply fail_fast_chat.
  - rewrite (call_mistral_summary_no_client w _ _ Hc). apply fail_fast_silent.
Qed.

Lemma fail_fast_summarize_chunks (w : World) (chunks : list str) :
  forall idx partial_summaries h,
    fail_fast (summarize_chunks w idx chunks partial_summaries h).
Proof.
  induction chunks as [|chunk rest IH]; intros idx acc h.
  - apply fail_fast_silent.
  - cbn [summarize_chunks]. apply fail_fast_bind.
    + apply fail_fast_call_mistral_summary.
    + intros a. apply IH.
Qed.

Lemma fail_fast_summarize (w : World) (transcript : str)
      (max_direct_chars : Z) (h : list Event) :
  fail_fast (summarize_meeting_with_mistral w transcript max_direct_chars h).
Proof.
  unfold summarize_meeting_with_mistral.
  destruct (is_empty (strip transcript)); [apply fail_fast_silent|].
  destruct (len (strip transcript) <=? max_direct_chars).
  - apply fail_fast_call_mistral_summary.
  - apply fail_fast_bind; [apply fail_fast_silent|]. intros chunks.
    apply fail_fast_bind; [apply fail_fast_summarize_chunks|]. intros ps.
    apply fail_fast_bind; [apply fail_fast_call_mistral_summary|]. intros s.
    apply fail_fast_silent.
Qed.

(** X1: a summary request makes at most one chat call.  It returns text
    only when that call gave a response with a choice, and the text is the
    first choice; each failure is raised with its own message and, without
    a client, nothing is called. *)
Theorem call_mistral_summary_outcomes :
  forall (w : World) (prompt_content : str) (h : list Event),
    (length (fst (_call_mistral_summary w prompt_content h)) <= 1)%nat
    /\ (mistral_client w = None ->
        _call_mistral_summary w prompt_content h
        = ([], Raise CLIENT_NOT_CONFIGURED))
    /\ (forall text : str,
           snd (_call_mistral_summary w prompt_content h) = Ok text ->
           exists rest,
             fst (_call_mistral_summary w prompt_content h)
             = [ChatComplete (MISTRAL_CHAT_MODEL w)
                             (summary_messages prompt_content)
                             (Ok (mkChatResponse (text :: rest)))])
    /\ (forall (e : str) (evs : list Event),
           fst (_call_mistral_summary w prompt_content h)
           = ChatComplete (MISTRAL_CHAT_MODEL w)
                          (summary_messages prompt_content) (Raise e) :: evs ->
           snd (_call_mistral_summary w prompt_content h)
           = Raise (lit "Failed to get summary from Mistral: " ++ e))
    /\ (forall evs : list Event,
           fst (_call_mistral_summary w prompt_content h)
           = ChatComplete (MISTRAL_CHAT_MODEL w)
                          (summary_messages prompt_content)
                          (Ok (mkChatResponse [])) :: evs ->
           snd (_call_mistral_summary w prompt_content h)
           = Raise (lit "Unexpected response format from Mistral: "
                    ++ lit "list index out of range")).
Proof.
  intros w prompt_content h.
  destruct (mistral_client w) as [client|] eqn:Hc.
  - rewrite (call_mistral_summary_chat w client _ _ Hc). cbn [fst snd length].
    split; [lia|]. split; [discriminate|].
    destruct (chat_complete client h (MISTRAL_CHAT_MODEL w)
                            (summary_messages prompt_content))
      as [[[|c cs]]|e]; cbn [chat_outcome];
      (split; [intros text Ht
              |split; [intros e' evs He | intros evs He]]);
      try discriminate; try reflexivity.
    + injection Ht as <-. now exists cs.
    + injection He as <-. reflexivity.
  - rewrite (call_mistral_summary_no_client w _ _ Hc). cbn [fst snd length].
    split; [lia|]. split; [reflexivity|].
    split; [discriminate|]. split; intros; discriminate.
Qed.

Lemma call_mistral_summary_outcomes_witness :
  _call_mistral_summary (demo_world None (Ok []) (Ok []) true)
                        short_transcript []
  = ([], Raise CLIENT_NOT_CONFIGURED)
  /\ snd (_call_mistral_summary
            (demo_world (Some failing_client) (Ok []) (Ok []) true)
            short_transcript [])
     = Raise (lit "Failed to get summary from Mistral: "
              ++ lit "quota exceeded").
Proof.
  split.
  - exact (proj1 (proj2 (call_mistral_summary_outcomes
                           (demo_world None (Ok []) (Ok []) true)
                           short_transcript [])) eq_refl).
  - exact (proj1 (proj2 (proj2 (proj2 (call_mistral_summary_outcomes
             (demo_world (Some failing_client) (Ok []) (Ok []) true)
             short_transcript []))))
             (lit "quota exceeded") [] eq_refl).
Defined.

(** X2: the summariser is all or nothing.  In every run a failed
    completion call is the last call made, and a run in which a call failed
    raises; so a summary is returned only when every call was answered. *)
Theorem summarize_all_or_nothing :
  forall (w : World) (transcript : str) (max_direct_chars : Z)
         (h : list Event),
    failure_is_last
      (fst (summarize_meeting_with_mistral w transcript max_direct_chars h))
    = true
    /\ (existsb event_failed
                (fst (summarize_meeting_with_mistral
                        w transcript max_direct_chars h)) = true ->
        exists msg,
          snd (summarize_meeting_with_mistral w transcript max_direct_chars h)
          = Raise msg)
    /\ (forall summary : str,
           snd (summarize_meeting_with_mistral w transcript max_direct_chars h)
           = Ok summary ->
           existsb event_failed
                   (fst (summarize_meeting_with_mistral
                           w transcript max_direct_chars h)) = false).
Proof.
  intros w transcript max_direct_chars h.
  destruct (fail_fast_summarize w transcript max_direct_chars h) as [Hl Hr].
  split; [exact Hl|]. split.
  - intros Hf. specialize (Hr Hf).
    destruct (snd (summarize_meeting_with_mistral w transcript
                                                  max_direct_chars h))
      as [s|msg]; [discriminate|now exists msg].
  - intros summary Hs. rewrite Hs in Hr.
    destruct (existsb event_failed _); [now specialize (Hr eq_refl)|reflexivity].
Qed.

Lemma summarize_all_or_nothing_witness :
  existsb event_failed
          (fst (summarize_meeting_with_mistral
                  (demo_world (Some flaky_client) (Ok []) (Ok []) true)
                  two_paragraphs 5000 [])) = true
  /\ length (fst (summarize_meeting_with_mistral
                    (demo_world (Some flaky_client) (Ok []) (Ok []) true)
                    two_paragraphs 5000 [])) = 2%nat
  /\ exists msg,
      snd (summarize_meeting_with_mistral
             (demo_world (Some flaky_client) (Ok []) (Ok []) true)
             two_paragraphs 5000 [])
      = Raise msg.
Proof.
  assert (Hf : existsb event_failed
                 (fst (summarize_meeting_with_mistral
                         (demo_world (Some flaky_client) (Ok []) (Ok []) true)
                         two_paragraphs 5000 [])) = true).
  { vm_compute. reflexivity. }
  split; [exact Hf|]. split; [vm_compute; reflexivity|].
  exact (proj1 (proj2 (summarize_all_or_nothing
                         (demo_world (Some flaky_client) (Ok []) (Ok []) true)
                         two_paragraphs 5000 [])) Hf).
Defined.

(** ** What the summariser calls *)

Lemma events_bind {A B} (P : Event -> Prop) (m : IO A) (f : A -> IO B)
      (h : list Event) :
  Forall P (fst (m h)) ->
  (forall a, Forall P (fst (f a (h ++ fst (m h))))) ->
  Forall P (fst (bind m f h)).
Proof.
  unfold bind. destruct (m h) as [e1 [a|msg]]; cbn [fst]; intros Hm Hf.
  - specialize (Hf a). destruct (f a (h ++ e1)) as [e2 r2].
    cbn [fst] in *. now apply Forall_app.
  - exact Hm.
Qed.

Lemma call_mistral_summary_requests (w : World) (prompt_content : str)
      (h : list Event) :
  Forall (summary_request w) (fst (_call_mistral_summary w prompt_content h)).
Proof.
  destruct (mistral_client w) as [client|] eqn:Hc.
  - rewrite (call_mistral_summary_chat w client _ _ Hc). cbn [fst].
    constructor; [|constructor]. eexists. eexists. reflexivity.
  - rewrite (call_mistral_summary_no_client w _ _ Hc). constructor.
Qed.

Lemma summarize_chunks_requests (w : World) (chunks : list str) :
  forall idx partial_summaries h,
    Forall (summary_request w)
           (fst (summarize_chunks w idx chunks partial_summaries h)).
Proof.
  induction chunks as [|chunk rest IH]; intros idx acc h.
  - constructor.
  - cbn [summarize_chunks]. apply events_bind.
    + apply call_mistral_summary_requests.
    + intros a. apply IH.
Qed.

Lemma summarize_requests (w : World) (transcript : str)
      (max_direct_chars : Z) (h : list Event) :
  Forall (summary_request w)
         (fst (summarize_meeting_with_mistral w transcript max_direct_chars h)).
Proof.
  unfold summarize_meeting_with_mistral.
  destruct (is_empty (strip transcript)); [constructor|].
  destruct (len (strip transcript) <=? max_direct_chars).
  - apply call_mistral_summary_requests.
  - apply events_bind; [constructor|]. intros chunks.
    apply events_bind; [apply summarize_chunks_requests|]. intros ps.
    apply events_bind; [apply call_mistral_summary_requests|]. intros s.
    constructor.
Qed.

(** X3: whatever the transcript and the world, the summariser calls
    nothing but the chat completion service, each time with the configured
    model and a summary prompt (a system message and a user message). *)
Theorem summarize_only_summary_requests :
  forall (w : World) (transcript : str) (max_direct_chars : Z)
         (h : list Event),
    Forall (summary_request w)
           (fst (summarize_meeting_with_mistral
                   w transcript max_direct_chars h))
    /\ forallb is_chat_complete
               (fst (summarize_meeting_with_mistral
                       w transcript max_direct_chars h)) = true
    /\ Forall (fun e => map role (event_request e)
                        = [lit "system"; lit "user"])
              (fst (summarize_meeting_with_mistral
                      w transcript max_direct_chars h)).
Proof.
  intros w transcript max_direct_chars h.
  pose proof (summarize_requests w transcript max_direct_chars h) as H.
  split; [exact H|]. split.
  - apply forallb_forall. intros e He.
    rewrite Forall_forall in H. destruct (H e He) as (p & out & ->).
    reflexivity.
  - apply Forall_forall. intros e He.
    rewrite Forall_forall in H. destruct (H e He) as (p & out & ->).
    reflexivity.
Qed.

Lemma summarize_chunks_prefix (w : World) (chunks : list str) :
  forall idx partial_summaries h,
    (length (fst (summarize_chunks w idx chunks partial_summaries h))
     <= length chunks)%nat
    /\ map event_request
           (fst (summarize_chunks w idx chunks partial_summaries h))
       = map summary_messages
             (firstn (length (fst (summarize_chunks
                                     w idx chunks partial_summaries h)))
                     chunks)
    /\ (forall ps,
           snd (summarize_chunks w idx chunks partial_summaries h) = Ok ps ->
           length (fst (summarize_chunks w idx chunks partial_summaries h))
           = length chunks).
Proof.
  induction chunks as [|chunk rest IH]; intros idx acc h.
  - cbn. repeat split; lia.
  - cbn [summarize_chunks]. unfold bind.
    destruct (mistral_client w) as [client|] eqn:Hc.
    + rewrite (call_mistral_summary_chat w client _ _ Hc).
      destruct (chat_outcome _ _ _) as [c|msg].
      * match goal with
        | |- context [summarize_chunks w (S idx) rest ?a ?h'] =>
            destruct (IH (S idx) a h') as (Hlen & Hreq & Hok);
            destruct (summarize_chunks w (S idx) rest a h') as [evs r]
        end.
        cbn [fst snd app length map firstn event_request] in *.
        rewrite Hreq. repeat split; try lia.
        intros ps Hps. rewrite (Hok ps Hps). reflexivity.
      * cbn. repeat split; try lia. discriminate.
    + rewrite (call_mistral_summary_no_client w _ _ Hc).
      cbn. repeat split; try lia. discriminate.
Qed.

Lemma summarize_chunked_run (w : World) (transcript : str)
      (max_direct_chars : Z) (h : list Event) (chunks : list str) :
  strip transcript <> [] ->
  max_direct_chars < len (strip transcript) ->
  split_text w max_direct_chars 300 SEPARATORS (strip transcript)
  = Ok chunks ->
  summarize_meeting_with_mistral w transcript max_direct_chars h
  = match snd (summarize_chunks w 1 chunks [] h) with
    | Ok ps =>
        (fst (summarize_chunks w 1 chunks [] h)
         ++ fst (_call_mistral_summary
                   w (final_messages_text ps)
                   (h ++ fst (summarize_chunks w 1 chunks [] h))),
         snd (_call_mistral_summary
                w (final_messages_text ps)
                (h ++ fst (summarize_chunks w 1 chunks [] h))))
    | Raise msg => (fst (summarize_chunks w 1 chunks [] h), Raise msg)
    end.
Proof.
  intros Hne Hgt Hsplit. unfold summarize_meeting_with_mistral.
  destruct (is_empty (strip transcript)) eqn:He.
  { apply is_empty_true in He. contradiction. }
  apply Z.leb_gt in Hgt. rewrite Hgt.
  unfold _split_text. rewrite Hsplit. io_unfold. rewrite app_nil_r.
  destruct (summarize_chunks w 1 chunks [] h) as [evs [ps|msg]];
    cbn [fst snd app]; [|reflexivity].
  destruct (_call_mistral_summary w (final_messages_text ps) (h ++ evs))
    as [ef [s|msg]]; cbn [fst snd]; rewrite ?app_nil_r; reflexivity.
Qed.

(** X4: above the threshold, an error of the splitter is raised unchanged
    and nothing is called; otherwise at most one call per chunk and one
    merge call are made, and the calls for the chunks are requests for an
    initial part of the chunks, in chunk order: no chunk is skipped or
    summarised twice. *)
Theorem summarize_chunked_calls :
  forall (w : World) (transcript : str) (max_direct_chars : Z)
         (h : list Event),
    strip transcript <> [] ->
    max_direct_chars < len (strip transcript) ->
    match split_text w max_direct_chars 300 SEPARATORS (strip transcript) with
    | Raise e =>
        summarize_meeting_with_mistral w transcript max_direct_chars h
        = ([], Raise e)
    | Ok chunks =>
        (length (fst (summarize_meeting_with_mistral
                        w transcript max_direct_chars h))
         <= S (length chunks))%nat
        /\ firstn (length chunks)
                  (map event_request
                       (fst (summarize_meeting_with_mistral
                               w transcript max_direct_chars h)))
           = map summary_messages
                 (firstn (length (fst (summarize_meeting_with_mistral
                                         w transcript max_direct_chars h)))
                         chunks)
    end.
Proof.
  intros w transcript max_direct_chars h Hne Hgt.
  destruct (split_text w max_direct_chars 300 SEPARATORS (strip transcript))
    as [chunks|e] eqn:Hsplit.
  - rewrite (summarize_chunked_run w transcript max_direct_chars h chunks
                                   Hne Hgt Hsplit).
    destruct (summarize_chunks_prefix w chunks 1%nat [] h)
      as (Hlen & Hreq & Hok).
    destruct (summarize_chunks w 1 chunks [] h) as [evs [ps|msg]];
      cbn [fst snd] in *.
    + specialize (Hok ps eq_refl).
      pose proof (call_mistral_summary_at_most_one
                    w (final_messages_text ps) (h ++ evs)) as Hone.
      rewrite length_app, map_app. split; [lia|].
      rewrite <- (length_map event_request evs) in Hok.
      rewrite <- Hok, firstn_app, firstn_all, Nat.sub_diag, firstn_O,
        app_nil_r.
      rewrite Hreq. rewrite length_map in Hok.
      rewrite firstn_all2 by lia. rewrite firstn_all2 by lia. reflexivity.
    + split; [lia|]. rewrite firstn_all2; [exact Hreq|].
      rewrite length_map. exact Hlen.
  - unfold summarize_meeting_with_mistral.
    destruct (is_empty (strip transcript)) eqn:He.
    { apply is_empty_true in He. contradiction. }
    apply Z.leb_gt in Hgt. rewrite Hgt.
    unfold _split_text. rewrite Hsplit. reflexivity.
Qed.

Lemma summarize_chunked_calls_witness :
  ((length (fst (summarize_meeting_with_mistral
                   (demo_world (Some flaky_client) (Ok []) (Ok []) true)
                   two_paragraphs 5000 []))
    <= S (length [repeat 97%N (Z.to_nat 3000); repeat 98%N (Z.to_nat 3000)]))%nat
   /\ firstn (length [repeat 97%N (Z.to_nat 3000);
                      repeat 98%N (Z.to_nat 3000)])
             (map event_request
                  (fst (summarize_meeting_with_mistral
                          (demo_world (Some flaky_client) (Ok []) (Ok []) true)
                          two_paragraphs 5000 [])))
      = map summary_messages
            (firstn (length (fst (summarize_meeting_with_mistral
                                    (demo_world (Some flaky_client) (Ok [])
                                                (Ok []) true)
                                    two_paragraphs 5000 [])))
                    [repeat 97%N (Z.to_nat 3000);
                     repeat 98%N (Z.to_nat 3000)]))
  /\ summarize_meeting_with_mistral
       (demo_world (Some demo_client) (Ok []) (Ok []) true)
       medium_transcript 200 []
     = ([], Raise (lit "Got a larger chunk overlap (300) than chunk size (200), should be smaller.")).
Proof.
  split.
  - assert (Hne : strip two_paragraphs <> []).
    { vm_compute. discriminate. }
    assert (Hgt : 5000 < len (strip two_paragraphs)).
    { vm_compute. reflexivity. }
    assert (Hsplit : split_text
                       (demo_world (Some flaky_client) (Ok []) (Ok []) true)
                       5000 300 SEPARATORS (strip two_paragraphs)
                     = Ok [repeat 97%N (Z.to_nat 3000);
                           repeat 98%N (Z.to_nat 3000)]).
    { vm_compute. reflexivity. }
    pose proof (summarize_chunked_calls
                  (demo_world (Some flaky_client) (Ok []) (Ok []) true)
                  two_paragraphs 5000 [] Hne Hgt) as H.
    rewrite Hsplit in H. exact H.
  - assert (Hne : strip medium_transcript <> []).
    { vm_compute. discriminate. }
    assert (Hgt : 200 < len (strip medium_transcript)).
    { vm_compute. reflexivity. }
    exact (summarize_chunked_calls
             (demo_world (Some demo_client) (Ok []) (Ok []) true)
             medium_transcript 200 [] Hne Hgt).
Defined.

Lemma summarize_chunks_no_client (w : World) (chunks : list str)
      (idx : nat) (partial_summaries : list str) (h : list Event) :
  mistral_client w = None ->
  summarize_chunks w idx chunks partial_summaries h
  = ([], match chunks with
         | [] => Ok partial_summaries
         | _ :: _ => Raise CLIENT_NOT_CONFIGURED
         end).
Proof.
  intros Hc. destruct chunks as [|chunk rest]; [reflexivity|].
  cbn [summarize_chunks]. unfold bind.
  rewrite (call_mistral_summary_no_client w _ _ Hc). reflexivity.
Qed.

(** X5: without a configured client the summariser never reaches the
    service: for a transcript with text it makes no call and raises the
    configuration error, or the error of the splitter when the transcript is
    above the threshold and the splitter raises. *)
Theorem summarize_without_client :
  forall (w : World) (transcript : str) (max_direct_chars : Z)
         (h : list Event),
    mistral_client w = None ->
    strip transcript <> [] ->
    fst (summarize_meeting_with_mistral w transcript max_direct_chars h) = []
    /\ (snd (summarize_meeting_with_mistral w transcript max_direct_chars h)
        = Raise CLIENT_NOT_CONFIGURED
        \/ exists e,
            max_direct_chars < len (strip transcript)
            /\ split_text w max_direct_chars 300 SEPARATORS (strip transcript)
               = Raise e
            /\ snd (summarize_meeting_with_mistral
                      w transcript max_direct_chars h)
               = Raise e).
Proof.
  intros w transcript max_direct_chars h Hc Hne.
  destruct (Z.leb_spec (len (strip transcript)) max_direct_chars) as [Hle|Hgt].
  - unfold summarize_meeting_with_mistral.
    destruct (is_empty (strip transcript)) eqn:He.
    { apply is_empty_true in He. contradiction. }
    apply Z.leb_le in Hle. rewrite Hle.
    rewrite (call_mistral_summary_no_client w _ _ Hc). split; [reflexivity|].
    now left.
  - destruct (split_text w max_direct_chars 300 SEPARATORS (strip transcript))
      as [chunks|e] eqn:Hsplit.
    + rewrite (summarize_chunked_run w transcript max_direct_chars h chunks
                                     Hne Hgt Hsplit).
      rewrite (summarize_chunks_no_client w chunks 1 [] h Hc).
      destruct chunks as [|chunk rest]; cbn [fst snd app].
      * rewrite (call_mistral_summary_no_client w _ _ Hc).
        split; [reflexivity|]. now left.
      * split; [reflexivity|]. now left.
    + unfold summarize_meeting_with_mistral.
      destruct (is_empty (strip transcript)) eqn:He.
      { apply is_empty_true in He. contradiction. }
      pose proof Hgt as Hgt'. apply Z.leb_gt in Hgt'. rewrite Hgt'.
      unfold _split_text. rewrite Hsplit. split; [reflexivity|].
      right. exists e. repeat split; try assumption.
Qed.

Lemma summarize_without_client_witness :
  summarize_meeting_with_mistral
    (demo_world None (Ok []) (Ok []) true) long_transcript 5000 []
  = ([], Raise CLIENT_NOT_CONFIGURED).
Proof.
  assert (Hne : strip long_transcript <> []).
  { vm_compute. discriminate. }
  destruct (summarize_without_client
              (demo_world None (Ok []) (Ok []) true) long_transcript 5000 []
              eq_refl Hne) as [Hev Hres].
  destruct (summarize_meeting_with_mistral
              (demo_world None (Ok []) (Ok []) true) long_transcript 5000 [])
    as [evs r].
  cbn [fst snd] in *. subst evs.
  destruct Hres as [->|(e & _ & Hsplit & _)]; [reflexivity|].
  exfalso. revert Hsplit. vm_compute. discriminate.
Defined.

(** ** White space around a text *)

Lemma lstrip_pad_left (pre s : str) :
  forallb isspace pre = true -> lstrip (pre ++ s) = lstrip s.
Proof.
  induction pre as [|c pre IH]; simpl; [reflexivity|].
  intros H. apply andb_prop in H as [Hc Hp]. rewrite Hc. auto.
Qed.

Lemma rstrip_whitespace (s : str) :
  forallb isspace s = true -> rstrip s = [].
Proof.
  induction s as [|c s IH]; simpl; [reflexivity|].
  intros H. apply andb_prop in H as [Hc Hs]. rewrite (IH Hs), Hc. reflexivity.
Qed.

Lemma rstrip_pad_right (s post : str) :
  forallb isspace post = true -> rstrip (s ++ post) = rstrip s.
Proof.
  intros Hp. induction s as [|c s IH]; simpl.
  - now apply rstrip_whitespace.
  - now rewrite IH.
Qed.

Lemma lstrip_pad_right (s post : str) :
  forallb isspace post = true ->
  lstrip (s ++ post)
  = match lstrip s with [] => [] | _ :: _ => lstrip s ++ post end.
Proof.
  intros Hp. induction s as [|c s IH]; simpl.
  - now apply lstrip_whitespace.
  - destruct (isspace c); [exact IH | reflexivity].
Qed.

Lemma strip_pad (pre s post : str) :
  forallb isspace pre = true ->
  forallb isspace post = true ->
  strip (pre ++ s ++ post) = strip s.
Proof.
  intros Hpre Hpost. unfold strip.
  rewrite (lstrip_pad_left pre _ Hpre), (lstrip_pad_right s post Hpost).
  destruct (lstrip s) as [|c s'] eqn:Hl; [reflexivity|].
  now apply rstrip_pad_right.
Qed.

(** X6: white space around the transcript does not matter: a transcript
    padded on either side is summarised by the same calls, with the same
    result, as the transcript itself. *)
Theorem summarize_ignores_padding :
  forall (w : World) (pre transcript post : str) (max_direct_chars : Z)
         (h : list Event),
    forallb isspace pre = true ->
    forallb isspace post = true ->
    summarize_meeting_with_mistral w (pre ++ transcript ++ post)
                                   max_direct_chars h
    = summarize_meeting_with_mistral w transcript max_direct_chars h.
Proof.
  intros w pre transcript post max_direct_chars h Hpre Hpost.
  unfold summarize_meeting_with_mistral.
  rewrite (strip_pad pre transcript post Hpre Hpost). reflexivity.
Qed.

Lemma summarize_ignores_padding_witness :
  summarize_meeting_with_mistral
    (demo_world (Some demo_client) (Ok []) (Ok []) true)
    ((nl ++ lit "  ") ++ short_transcript ++ (lit " " ++ nl)) 5000 []
  = summarize_meeting_with_mistral
      (demo_world (Some demo_client) (Ok []) (Ok []) true)
      short_transcript 5000 [].
Proof.
  apply (summarize_ignores_padding
           (demo_world (Some demo_client) (Ok []) (Ok []) true)
           (nl ++ lit "  ") short_transcript (lit " " ++ nl) 5000 []);
    reflexivity.
Defined.

(** ** More on the context assembler *)

Lemma take_within_app_overflow (entries1 : list str) (c : str)
      (entries2 : list str) :
  forall cur max_chars,
    max_chars < cur + len (concat entries1) + len c ->
    take_within cur max_chars (entries1 ++ c :: entries2)
    = take_within cur max_chars entries1.
Proof.
  induction entries1 as [|e es IH]; intros cur max_chars Hover; simpl in *.
  - destruct (cur + len c >? max_chars) eqn:Hgt; [reflexivity|].
    exfalso. unfold len in *. simpl in *. lia.
  - destruct (cur + len e >? max_chars); [reflexivity|].
    f_equal. apply IH. rewrite len_app in Hover. lia.
Qed.

Lemma take_within_all (entries : list str) :
  forall cur max_chars,
    cur + len (concat entries) <= max_chars ->
    take_within cur max_chars entries = entries.
Proof.
  induction entries as [|e es IH]; intros cur max_chars Hfit; simpl in *;
    [reflexivity|].
  rewrite len_app in Hfit. pose proof (Zle_0_nat (length (concat es))) as Hes.
  unfold len in *.
  destruct (cur + Z.of_nat (length e) >? max_chars) eqn:Hgt; [lia|].
  f_equal. apply IH. lia.
Qed.

Lemma take_within_monotone (entries : list str) :
  forall cur max1 max2,
    max1 <= max2 ->
    exists n, take_within cur max1 entries
              = firstn n (take_within cur max2 entries).
Proof.
  induction entries as [|e es IH]; intros cur max1 max2 Hle; simpl.
  - now exists 0%nat.
  - destruct (cur + len e >? max1) eqn:H1.
    + now exists 0%nat.
    + destruct (cur + len e >? max2) eqn:H2; [lia|].
      destruct (IH (cur + len e) max1 max2 Hle) as (n & Hn).
      exists (S n). simpl. now rewrite Hn.
Qed.

Lemma candidates_app (docs1 docs2 : list Document) :
  candidates (docs1 ++ docs2) = candidates docs1 ++ candidates docs2.
Proof.
  unfold candidates. now rewrite map_app, filter_app, map_app.
Qed.

Lemma format_context_of_candidates (docs1 docs2 : list Document)
      (max_chars : Z) :
  candidates docs1 = candidates docs2 ->
  _format_context docs1 max_chars = _format_context docs2 max_chars.
Proof.
  intros H. unfold _format_context.
  now rewrite !format_loop_take_within, H.
Qed.

(** X7: a larger budget never loses a chunk: the chunks included under
    [max1] are an initial part of those included under any [max2] that is
    at least [max1]. *)
Theorem format_context_budget_monotone :
  forall (docs : list Document) (max1 max2 : Z),
    max1 <= max2 ->
    exists n : nat,
      format_loop docs max1 [] 0 = firstn n (format_loop docs max2 [] 0).
Proof.
  intros docs max1 max2 Hle. rewrite !format_loop_take_within. simpl.
  now apply take_within_monotone.
Qed.

Lemma format_context_budget_monotone_witness :
  exists n : nat,
    format_loop [doc "hello"; doc "ab"; doc "tail"] 12 [] 0
    = firstn n (format_loop [doc "hello"; doc "ab"; doc "tail"] 13 [] 0).
Proof.
  apply (format_context_budget_monotone
           [doc "hello"; doc "ab"; doc "tail"] 12 13).
  lia.
Defined.

(** X8: the loop breaks at the first chunk that does not fit: whatever
    follows that chunk is left out, even a later chunk short enough to
    fit. *)
Theorem format_context_stops_at_first_overflow :
  forall (docs1 : list Document) (d : Document) (docs2 : list Document)
         (max_chars : Z),
    strip (page_content d) <> [] ->
    max_chars
    < len (concat (candidates docs1)) + len (bullet (strip (page_content d))) ->
    _format_context (docs1 ++ d :: docs2) max_chars
    = _format_context docs1 max_chars.
Proof.
  intros docs1 d docs2 max_chars Hd Hover.
  unfold _format_context. rewrite !format_loop_take_within. simpl.
  rewrite candidates_app.
  assert (Hc : candidates (d :: docs2)
               = bullet (strip (page_content d)) :: candidates docs2).
  { unfold candidates. simpl.
    destruct (strip (page_content d)); [contradiction|reflexivity]. }
  rewrite Hc, take_within_app_overflow by lia. reflexivity.
Qed.

Lemma format_context_stops_at_first_overflow_witness :
  _format_context ([doc "hello"] ++ doc "a long chunk" :: [doc "ab"]) 13
  = _format_context [doc "hello"] 13
  /\ _format_context [doc "hello"; doc "ab"] 13
     = lit "- hello" ++ nl ++ lit "- ab" ++ nl.
Proof.
  split; [|reflexivity].
  apply (format_context_stops_at_first_overflow
           [doc "hello"] (doc "a long chunk") [doc "ab"] 13).
  - discriminate.
  - vm_compute. reflexivity.
Defined.

(** X9: with a budget that covers every entry, nothing is dropped: the
    context is the concatenation of the entries of all chunks that are not
    blank, in order. *)
Theorem format_context_complete_within_budget :
  forall (docs : list Document) (max_chars : Z),
    candidates docs <> [] ->
    len (concat (candidates docs)) <= max_chars ->
    _format_context docs max_chars = concat (candidates docs).
Proof.
  intros docs max_chars Hne Hfit. unfold _format_context.
  rewrite format_loop_take_within. simpl.
  rewrite take_within_all by lia.
  destruct (candidates docs); [contradiction|reflexivity].
Qed.

Lemma format_context_complete_within_budget_witness :
  _format_context [doc " hello "; doc ""; doc "ab"] 4000
  = concat (candidates [doc " hello "; doc ""; doc "ab"])
  /\ concat (candidates [doc " hello "; doc ""; doc "ab"])
     = lit "- hello" ++ nl ++ lit "- ab" ++ nl.
Proof.
  split; [|reflexivity].
  apply (format_context_complete_within_budget
           [doc " hello "; doc ""; doc "ab"] 4000).
  - discriminate.
  - vm_compute. discriminate.
Defined.

(** X10: the context depends on the chunks only through their stripped
    text: a blank chunk anywhere in the list, white space around a chunk's
    text and the metadata of a chunk change nothing. *)
Theorem format_context_ignores_blanks_and_padding :
  forall (docs1 docs2 : list Document) (d : Document) (pre post : str)
         (meta : list (str * str)) (max_chars : Z),
    forallb isspace pre = true ->
    forallb isspace post = true ->
    (blank d ->
     _format_context (docs1 ++ d :: docs2) max_chars
     = _format_context (docs1 ++ docs2) max_chars)
    /\ _format_context
         (docs1 ++ mkDocument (pre ++ page_content d ++ post) meta :: docs2)
         max_chars
       = _format_context (docs1 ++ d :: docs2) max_chars.
Proof.
  intros docs1 docs2 d pre post meta max_chars Hpre Hpost. split.
  - intros Hb. apply format_context_of_candidates.
    rewrite !candidates_app. f_equal.
    unfold candidates, blank in *. simpl. now rewrite Hb.
  - apply format_context_of_candidates.
    rewrite !candidates_app. f_equal.
    unfold candidates. simpl. now rewrite strip_pad.
Qed.

Lemma format_context_ignores_blanks_and_padding_witness :
  _format_context
    ([doc "hello"]
       ++ mkDocument (lit "  " ++ page_content (doc "ab") ++ nl)
                     [(lit "source", lit "meeting_transcript")]
       :: [doc "tail"]) 4000
  = _format_context ([doc "hello"] ++ doc "ab" :: [doc "tail"]) 4000.
Proof.
  apply (proj2 (format_context_ignores_blanks_and_padding
                  [doc "hello"] [doc "tail"] (doc "ab") (lit "  ") nl
                  [(lit "source", lit "meeting_transcript")] 4000
                  eq_refl eq_refl)).
Defined.

(** X11: the context is never the empty string, and unless it is the
    sentinel it opens with the bullet ["- "] and ends with a line break. *)
Theorem format_context_shape :
  forall (docs : list Document) (max_chars : Z),
    _format_context docs max_chars <> []
    /\ (_format_context docs max_chars = NO_CONTEXT
        \/ exists body,
            _format_context docs max_chars = lit "- " ++ body ++ nl).
Proof.
  intros docs max_chars.
  assert (H : _format_context docs max_chars = NO_CONTEXT
              \/ exists body,
                  _format_context docs max_chars = lit "- " ++ body ++ nl).
  { unfold _format_context. rewrite format_loop_take_within. simpl.
    destruct (take_within_prefix (candidates docs) 0 max_chars)
      as (n & _ & -> & _).
    assert (Hb : Forall (fun c => exists text, c = bullet text)
                        (firstn n (candidates docs))).
    { pose proof (candidates_bullets docs) as Hb0.
      rewrite <- (firstn_skipn n (candidates docs)) in Hb0.
      apply Forall_app in Hb0. tauto. }
    destruct (firstn n (candidates docs)) as [|p ps] eqn:Hp; [now left|].
    right. clear Hp.
    assert (Hall : exists body, concat (p :: ps) = lit "- " ++ body ++ nl).
    { revert p Hb. induction ps as [|q qs IH]; intros p Hb.
      - inversion Hb as [|? ? [text ->] _]; subst. exists text.
        simpl. now rewrite app_nil_r.
      - inversion Hb as [|? ? [text ->] Hb']; subst.
        destruct (IH q Hb') as (body & Hbody).
        exists (text ++ nl ++ lit "- " ++ body).
        change (concat (bullet text :: q :: qs))
          with (bullet text ++ concat (q :: qs)).
        rewrite Hbody. unfold bullet. now rewrite <- !app_assoc. }
    exact Hall. }
  split; [|exact H].
  destruct H as [->|(body & ->)]; discriminate.
Qed.

(** ** More on the answerer *)

Lemma format_context_bounded (docs : list Document) (max_chars : Z) :
  _format_context docs max_chars = NO_CONTEXT
  \/ len (_format_context docs max_chars) <= max_chars.
Proof.
  unfold _format_context. rewrite format_loop_take_within. simpl.
  destruct (take_within_prefix (candidates docs) 0 max_chars)
    as (n & _ & Ht & Hin & _).
  rewrite Ht. destruct (firstn n (candidates docs)) as [|p ps] eqn:Hp;
    [now left|].
  right. rewrite <- Hp. destruct n as [|n]; [discriminate Hp|].
  specialize (Hin (S n)). lia.
Qed.

Lemma answer_no_client (w : World) (question : str) (retriever : Retriever)
      (max_context_chars : Z) (h : list Event) :
  mistral_client w = None ->
  answer_question_with_mistral w question retriever max_context_chars h
  = ([], Raise CLIENT_NOT_CONFIGURED).
Proof.
  intros Hc. unfold answer_question_with_mistral, _ensure_mistral_client.
  rewrite Hc. reflexivity.
Qed.

Lemma answer_run (w : World) (client : Mistral) (question : str)
      (retriever : Retriever) (max_context_chars : Z) (h : list Event) :
  mistral_client w = Some client ->
  answer_question_with_mistral w question retriever max_context_chars h
  = match retriever_invoke w h retriever question with
    | Ok [] =>
        ([Invoke retriever question (Ok [])], Ok NOTHING_FOUND)
    | Ok (d :: ds) =>
        ([Invoke retriever question (Ok (d :: ds));
          ChatComplete (MISTRAL_CHAT_MODEL w)
            (answer_messages (_format_context (d :: ds) max_context_chars)
                             question)
            (chat_complete client
               (h ++ [Invoke retriever question (Ok (d :: ds))])
               (MISTRAL_CHAT_MODEL w)
               (answer_messages (_format_context (d :: ds) max_context_chars)
                                question))],
         chat_outcome (lit "Failed to get answer from Mistral: ")
                      (lit "Unexpected response format from Mistral: ")
                      (chat_complete client
                         (h ++ [Invoke retriever question (Ok (d :: ds))])
                         (MISTRAL_CHAT_MODEL w)
                         (answer_messages
                            (_format_context (d :: ds) max_context_chars)
                            question)))
    | Raise e => ([Invoke retriever question (Raise e)], Raise e)
    end.
Proof.
  intros Hc. unfold answer_question_with_mistral, _ensure_mistral_client.
  rewrite Hc. unfold bind at 1. unfold ret at 1. cbn [app].
  unfold bind at 1. unfold call at 1. rewrite !app_nil_r.
  destruct (retriever_invoke w h retriever question) as [[|d ds]|e];
    try reflexivity.
  rewrite (chat_first_choice_run w client _ _ _ _ Hc). reflexivity.
Qed.

(** X12: when the client is configured and the retrieval returns at least
    one chunk, the answerer makes exactly one completion call, after the
    retrieval.  The context of its prompt is the assembled context, which
    is the sentinel or at most [max_context_chars] long; the answer is the
    first choice of the response, and a failure of the call is raised with
    its message. *)
Theorem answer_with_documents :
  forall (w : World) (client : Mistral) (question : str)
         (retriever : Retriever) (max_context_chars : Z) (h : list Event)
         (d : Document) (ds : list Document),
    mistral_client w = Some client ->
    retriever_invoke w h retriever question = Ok (d :: ds) ->
    exists (context_text : str) (out : result ChatResponse),
      context_text = _format_context (d :: ds) max_context_chars
      /\ (context_text = NO_CONTEXT \/ len context_text <= max_context_chars)
      /\ out = chat_complete client
                 (h ++ [Invoke retriever question (Ok (d :: ds))])
                 (MISTRAL_CHAT_MODEL w)
                 (answer_messages context_text question)
      /\ fst (answer_question_with_mistral
                w question retriever max_context_chars h)
         = [Invoke retriever question (Ok (d :: ds));
            ChatComplete (MISTRAL_CHAT_MODEL w)
                         (answer_messages context_text question) out]
      /\ snd (answer_question_with_mistral
                w question retriever max_context_chars h)
         = match out with
           | Ok (mkChatResponse (c :: _)) => Ok c
           | Ok (mkChatResponse []) =>
               Raise (lit "Unexpected response format from Mistral: "
                      ++ lit "list index out of range")
           | Raise e => Raise (lit "Failed to get answer from Mistral: " ++ e)
           end.
Proof.
  intros w client question retriever max_context_chars h d ds Hc Hfound.
  rewrite (answer_run w client _ _ _ _ Hc), Hfound.
  eexists. eexists. split; [reflexivity|].
  split; [apply format_context_bounded|].
  split; [reflexivity|]. split; reflexivity.
Qed.

Lemma answer_with_documents_witness :
  answer_question_with_mistral
    (demo_world (Some demo_client) (Ok [])
                (Ok [doc "Bob writes the release notes."]) true)
    (lit "Who owns the release notes?")
    (build_retriever (mkFAISS [] (mkOpenAIEmbeddings (lit "m"))) 4) 4000 []
  = ([Invoke (build_retriever (mkFAISS [] (mkOpenAIEmbeddings (lit "m"))) 4)
             (lit "Who owns the release notes?")
             (Ok [doc "Bob writes the release notes."]);
      ChatComplete (lit "mistral-small-latest")
        (answer_messages (lit "- Bob writes the release notes." ++ nl)
                         (lit "Who owns the release notes?"))
        (Ok (mkChatResponse [lit "reply 1"]))],
     Ok (lit "reply 1")).
Proof.
  destruct (answer_with_documents
              (demo_world (Some demo_client) (Ok [])
                          (Ok [doc "Bob writes the release notes."]) true)
              demo_client (lit "Who owns the release notes?")
              (build_retriever (mkFAISS [] (mkOpenAIEmbeddings (lit "m"))) 4)
              4000 [] (doc "Bob writes the release notes.") []
              eq_refl eq_refl)
    as (ctx & out & -> & _ & -> & Hev & Hres).
  destruct (answer_question_with_mistral _ _ _ _ _) as [evs r].
  cbn [fst snd] in *. subst evs r. reflexivity.
Defined.

(** X13: retrieved chunks that are all blank do not stop the answerer: as
    long as the retrieval returned at least one chunk the completion call
    is made, with the sentinel as the context of the prompt. *)
Theorem answer_with_blank_documents :
  forall (w : World) (client : Mistral) (question : str)
         (retriever : Retriever) (max_context_chars : Z) (h : list Event)
         (d : Document) (ds : list Document),
    mistral_client w = Some client ->
    retriever_invoke w h retriever question = Ok (d :: ds) ->
    Forall blank (d :: ds) ->
    fst (answer_question_with_mistral w question retriever max_context_chars h)
    = [Invoke retriever question (Ok (d :: ds));
       ChatComplete (MISTRAL_CHAT_MODEL w)
         (answer_messages NO_CONTEXT question)
         (chat_complete client
            (h ++ [Invoke retriever question (Ok (d :: ds))])
            (MISTRAL_CHAT_MODEL w)
            (answer_messages NO_CONTEXT question))].
Proof.
  intros w client question retriever max_context_chars h d ds Hc Hfound Hb.
  rewrite (answer_run w client _ _ _ _ Hc), Hfound. cbn [fst].
  assert (Hctx : _format_context (d :: ds) max_context_chars = NO_CONTEXT).
  { apply format_context_sentinel_iff_no_parts.
    rewrite format_loop_take_within.
    apply candidates_nil_iff in Hb. rewrite Hb. reflexivity. }
  rewrite Hctx. reflexivity.
Qed.

Lemma answer_with_blank_documents_witness :
  fst (answer_question_with_mistral
         (demo_world (Some demo_client) (Ok []) (Ok [doc "  "; doc ""]) true)
         (lit "Who owns the release notes?")
         (build_retriever (mkFAISS [] (mkOpenAIEmbeddings (lit "m"))) 4)
         4000 [])
  = [Invoke (build_retriever (mkFAISS [] (mkOpenAIEmbeddings (lit "m"))) 4)
            (lit "Who owns the release notes?") (Ok [doc "  "; doc ""]);
     ChatComplete (lit "mistral-small-latest")
       (answer_messages NO_CONTEXT (lit "Who owns the release notes?"))
       (Ok (mkChatResponse [lit "reply 1"]))].
Proof.
  assert (Hb : Forall blank [doc "  "; doc ""]) by (repeat constructor).
  exact (answer_with_blank_documents
           (demo_world (Some demo_client) (Ok []) (Ok [doc "  "; doc ""]) true)
           demo_client (lit "Who owns the release notes?")
           (build_retriever (mkFAISS [] (mkOpenAIEmbeddings (lit "m"))) 4)
           4000 [] (doc "  ") [doc ""] eq_refl eq_refl Hb).
Defined.

Lemma fail_fast_answer (w : World) (question : str) (retriever : Retriever)
      (max_context_chars : Z) (h : list Event) :
  fail_fast (answer_question_with_mistral
               w question retriever max_context_chars h).
Proof.
  destruct (mistral_client w) as [client|] eqn:Hc.
  - rewrite (answer_run w client _ _ _ _ Hc).
    destruct (retriever_invoke w h retriever question) as [[|d ds]|e].
    + split; [reflexivity|discriminate].
    + destruct (chat_complete client _ _ _) as [[[|c cs]]|e];
        split; cbn; congruence.
    + split; reflexivity.
  - rewrite (answer_no_client w _ _ _ _ Hc). apply fail_fast_silent.
Qed.

(** X14: the answerer makes at most two calls, a retrieval and then a
    completion.  Without a client it calls nothing, not even the
    retriever; an error of the retrieval is raised unchanged and no
    completion call follows; in every run a failed call is the last call
    and makes the run raise. *)
Theorem answer_stops_at_first_failure :
  forall (w : World) (question : str) (retriever : Retriever)
         (max_context_chars : Z) (h : list Event),
    (length (fst (answer_question_with_mistral
                    w question retriever max_context_chars h)) <= 2)%nat
    /\ (mistral_client w = None ->
        answer_question_with_mistral w question retriever max_context_chars h
        = ([], Raise CLIENT_NOT_CONFIGURED))
    /\ (forall e : str,
           mistral_client w <> None ->
           retriever_invoke w h retriever question = Raise e ->
           answer_question_with_mistral
             w question retriever max_context_chars h
           = ([Invoke retriever question (Raise e)], Raise e))
    /\ failure_is_last
         (fst (answer_question_with_mistral
                 w question retriever max_context_chars h)) = true
    /\ (existsb event_failed
                (fst (answer_question_with_mistral
                        w question retriever max_context_chars h)) = true ->
        exists msg,
          snd (answer_question_with_mistral
                 w question retriever max_context_chars h)
          = Raise msg).
Proof.
  intros w question retriever max_context_chars h.
  destruct (fail_fast_answer w question retriever max_context_chars h)
    as [Hl Hr].
  split; [|split; [|split; [|split]]].
  - destruct (mistral_client w) as [client|] eqn:Hc.
    + rewrite (answer_run w client _ _ _ _ Hc).
      destruct (retriever_invoke w h retriever question) as [[|d ds]|e];
        cbn; lia.
    + rewrite (answer_no_client w _ _ _ _ Hc). cbn. lia.
  - apply answer_no_client.
  - intros e Hc Hfound. destruct (mistral_client w) as [client|] eqn:Hc';
      [|contradiction].
    rewrite (answer_run w client _ _ _ _ Hc'), Hfound. reflexivity.
  - exact Hl.
  - intros Hf. specialize (Hr Hf).
    destruct (snd (answer_question_with_mistral _ _ _ _ _)) as [s|msg];
      [discriminate|now exists msg].
Qed.

Lemma answer_stops_at_first_failure_witness :
  answer_question_with_mistral
    (demo_world (Some demo_client) (Ok [])
                (Raise (lit "embedding service unavailable")) true)
    (lit "Who owns the release notes?")
    (build_retriever (mkFAISS [] (mkOpenAIEmbeddings (lit "m"))) 4) 4000 []
  = ([Invoke (build_retriever (mkFAISS [] (mkOpenAIEmbeddings (lit "m"))) 4)
             (lit "Who owns the release notes?")
             (Raise (lit "embedding service unavailable"))],
     Raise (lit "embedding service unavailable")).
Proof.
  apply (proj1 (proj2 (proj2 (answer_stops_at_first_failure
           (demo_world (Some demo_client) (Ok [])
                       (Raise (lit "embedding service unavailable")) true)
           (lit "Who owns the release notes?")
           (build_retriever (mkFAISS [] (mkOpenAIEmbeddings (lit "m"))) 4)
           4000 [])))).
  - discriminate.
  - reflexivity.
Defined.

(** ** More on the callbacks *)

Lemma strip_nonempty (s : str) : strip s <> [] -> s <> [].
Proof. intros H ->. now apply H. Qed.

(** X15: with a retriever and a question that has text, the question
    callback makes exactly the calls of the answerer and returns its
    answer, or, when the answerer raises, the text of the exception after a
    fixed prefix. *)
Theorem answer_question_ui_reports_errors :
  forall (w : World) (question : str) (r : Retriever) (h : list Event),
    strip question <> [] ->
    fst (answer_question_ui w question (Some r) h)
    = fst (answer_question_with_mistral w question r 4000 h)
    /\ snd (answer_question_ui w question (Some r) h)
       = Ok match snd (answer_question_with_mistral w question r 4000 h) with
            | Ok answer => answer
            | Raise e => lit "Error while answering your question: " ++ e
            end.
Proof.
  intros w question r h Hq. unfold answer_question_ui.
  pose proof (strip_nonempty question Hq) as Hq'.
  destruct question as [|c q]; [contradiction|].
  destruct (strip (c :: q)) as [|c' q'] eqn:Hs; [contradiction|].
  cbn [is_empty orb]. unfold try_except, ret.
  destruct (answer_question_with_mistral w (c :: q) r 4000 h)
    as [evs [a|e]]; cbn [fst snd]; rewrite ?app_nil_r; split; reflexivity.
Qed.

Lemma answer_question_ui_reports_errors_witness :
  answer_question_ui
    (demo_world None (Ok []) (Ok []) true)
    (lit "Who owns the release notes?")
    (Some (build_retriever (mkFAISS [] (mkOpenAIEmbeddings (lit "m"))) 4)) []
  = ([], Ok (lit "Error while answering your question: "
             ++ CLIENT_NOT_CONFIGURED)).
Proof.
  assert (Hq : strip (lit "Who owns the release notes?") <> [])
    by discriminate.
  destruct (answer_question_ui_reports_errors
              (demo_world None (Ok []) (Ok []) true)
              (lit "Who owns the release notes?")
              (build_retriever (mkFAISS [] (mkOpenAIEmbeddings (lit "m"))) 4)
              [] Hq) as [Hev Hres].
  destruct (answer_question_ui _ _ _ _) as [evs r].
  cbn [fst snd] in *. subst evs r. reflexivity.
Defined.

Lemma process_audio_transcription_failed (w : World) (path e : str)
      (h : list Event) :
  path <> [] ->
  transcriptions_create w h (OPENAI_WHISPER_MODEL w) path = Raise e ->
  process_audio w (Some path) h
  = ([Transcription (OPENAI_WHISPER_MODEL w) path (Raise e)],
     Ok (lit "Error during transcription: "
         ++ (lit "Failed to transcribe audio from path '" ++ path
             ++ lit "': " ++ e),
         [], None)).
Proof.
  intros Hpath Hheard. unfold process_audio.
  destruct path as [|p path']; [contradiction|]. cbn [is_empty].
  unfold transcribe_audio_path. io_unfold. rewrite Hheard. reflexivity.
Qed.

Lemma build_vector_store_run (w : World) (transcript : str)
      (h : list Event) :
  build_vector_store_from_transcript w transcript h
  = match split_documents
            w 1000 200 SEPARATORS
            [mkDocument transcript [(lit "source", lit "meeting_transcript")]]
    with
    | Raise e => ([], Raise e)
    | Ok docs =>
        ([FromDocuments docs (mkOpenAIEmbeddings (OPENAI_EMBEDDING_MODEL w))
            (faiss_from_documents
               w h docs (mkOpenAIEmbeddings (OPENAI_EMBEDDING_MODEL w)))],
         match faiss_from_documents
                 w h docs (mkOpenAIEmbeddings (OPENAI_EMBEDDING_MODEL w)) with
         | Ok vector_store =>
             Ok (vector_store, mkOpenAIEmbeddings (OPENAI_EMBEDDING_MODEL w))
         | Raise e => Raise e
         end)
    end.
Proof.
  unfold build_vector_store_from_transcript, _split_transcript_to_documents.
  io_unfold.
  destruct (split_documents _ _ _ _ _) as [docs|e]; [|reflexivity].
  rewrite app_nil_r.
  destruct (faiss_from_documents _ _ _ _) as [vs|e]; reflexivity.
Qed.

(** X17: without a transcript nothing else is called.  With no upload, or
    an empty path, no service is called at all; when the transcription
    raises, it was the only call, no retriever is returned and the preview
    is the error text, which names the path and the cause. *)
Theorem process_audio_without_transcript :
  forall (w : World) (h : list Event),
    process_audio w None h = ([], Ok (NO_AUDIO, [], None))
    /\ process_audio w (Some []) h = ([], Ok (NO_AUDIO, [], None))
    /\ (forall path e : str,
           path <> [] ->
           transcriptions_create w h (OPENAI_WHISPER_MODEL w) path = Raise e ->
           process_audio w (Some path) h
           = ([Transcription (OPENAI_WHISPER_MODEL w) path (Raise e)],
              Ok (lit "Error during transcription: "
                  ++ lit "Failed to transcribe audio from path '" ++ path
                  ++ lit "': " ++ e,
                  [], None))).
Proof.
  intros w h. split; [reflexivity|]. split; [reflexivity|].
  intros path e Hpath Hheard.
  rewrite (process_audio_transcription_failed w path e h Hpath Hheard).
  reflexivity.
Qed.

Lemma process_audio_without_transcript_witness :
  process_audio
    (demo_world (Some demo_client) (Raise (lit "file not found")) (Ok []) true)
    (Some (lit "meeting.mp3")) []
  = ([Transcription (lit "whisper-1") (lit "meeting.mp3")
                    (Raise (lit "file not found"))],
     Ok (lit "Error during transcription: "
         ++ lit "Failed to transcribe audio from path 'meeting.mp3': "
         ++ lit "file not found",
         [], None)).
Proof.
  assert (Hpath : lit "meeting.mp3" <> []) by discriminate.
  exact (proj2 (proj2 (process_audio_without_transcript
                         (demo_world (Some demo_client)
                                     (Raise (lit "file not found")) (Ok [])
                                     true) []))
               (lit "meeting.mp3") (lit "file not found") Hpath eq_refl).
Defined.

(** X18: a retriever is returned exactly when the transcription and the
    index build both succeed, whatever the summariser did; it is the
    retriever with [k = 4] over the store that was built. *)
Theorem process_audio_retriever_available :
  forall (w : World) (path : str) (h : list Event) (r : Retriever),
    path <> [] ->
    (exists preview summary : str,
        snd (process_audio w (Some path) h) = Ok (preview, summary, Some r))
    <-> (exists (transcript : str) (vector_store : FAISS)
                (embeddings : OpenAIEmbeddings),
            transcriptions_create w h (OPENAI_WHISPER_MODEL w) path
            = Ok transcript
            /\ snd (build_vector_store_from_transcript
                      w transcript
                      ((h ++ [Transcription (OPENAI_WHISPER_MODEL w) path
                                            (Ok transcript)])
                         ++ fst (summarize_meeting_with_mistral
                                   w transcript 5000
                                   (h ++ [Transcription
                                            (OPENAI_WHISPER_MODEL w) path
                                            (Ok transcript)]))))
               = Ok (vector_store, embeddings)
            /\ r = build_retriever vector_store 4).
Proof.
  intros w path h r Hpath.
  destruct (transcriptions_create w h (OPENAI_WHISPER_MODEL w) path)
    as [transcript|e] eqn:Hheard.
  - rewrite (process_audio_run w path transcript h Hpath Hheard).
    cbn zeta. cbn [snd]. split.
    + intros (preview & summary & Hres).
      exists transcript.
      destruct (snd (build_vector_store_from_transcript _ _ _))
        as [[vs emb]|e]; [|discriminate Hres].
      exists vs, emb. injection Hres as _ _ <-. repeat split.
    + intros (t' & vs & emb & Ht & Hb & ->). injection Ht as <-.
      rewrite Hb. eexists. eexists. reflexivity.
  - rewrite (process_audio_transcription_failed w path e h Hpath Hheard).
    cbn [snd]. split.
    + intros (preview & summary & Hres). discriminate Hres.
    + intros (t' & vs & emb & Ht & _). discriminate Ht.
Qed.

Lemma process_audio_retriever_available_witness :
  exists preview summary : str,
    snd (process_audio (demo_world None (Ok short_transcript) (Ok []) true)
                       (Some (lit "meeting.mp3")) [])
    = Ok (preview, summary,
          Some (build_retriever
                  (mkFAISS
                     [mkDocument short_transcript
                                 [(lit "source", lit "meeting_transcript")]]
                     (mkOpenAIEmbeddings (lit "text-embedding-3-small")))
                  4)).
Proof.
  assert (Hpath : lit "meeting.mp3" <> []) by discriminate.
  apply (proj2 (process_audio_retriever_available
                  (demo_world None (Ok short_transcript) (Ok []) true)
                  (lit "meeting.mp3") [] _ Hpath)).
  exists short_transcript.
  eexists. eexists. split; [reflexivity|]. split; reflexivity.
Defined.

(** X19: the order of the upload pipeline.  A run that calls anything
    starts with one transcription of the uploaded path; then come the
    summary requests, then at most one build of the vector store, with the
    configured embedding model.  The retriever is never queried. *)
Theorem process_audio_pipeline_order :
  forall (w : World) (audio_path : option str) (h : list Event),
    fst (process_audio w audio_path h) = []
    \/ exists (path : str) (out : result str) (es eb : list Event),
        audio_path = Some path
        /\ fst (process_audio w audio_path h)
           = Transcription (OPENAI_WHISPER_MODEL w) path out :: es ++ eb
        /\ Forall (summary_request w) es
        /\ (eb = []
            \/ exists docs built,
                eb = [FromDocuments
                        docs (mkOpenAIEmbeddings (OPENAI_EMBEDDING_MODEL w))
                        built]).
Proof.
  intros w [path|] h; [|now left].
  destruct path as [|p path'] eqn:Hp; [now left|].
  rewrite <- Hp. assert (Hpath : path <> []) by (rewrite Hp; discriminate).
  right. exists path.
  destruct (transcriptions_create w h (OPENAI_WHISPER_MODEL w) path)
    as [transcript|e] eqn:Hheard.
  - rewrite (process_audio_run w path transcript h Hpath Hheard).
    cbn zeta. cbn [fst].
    exists (Ok transcript).
    exists (fst (summarize_meeting_with_mistral
                   w transcript 5000
                   (h ++ [Transcription (OPENAI_WHISPER_MODEL w) path
                                        (Ok transcript)]))).
    eexists. split; [reflexivity|]. split; [reflexivity|].
    split; [apply summarize_requests|].
    rewrite build_vector_store_run.
    destruct (split_documents _ _ _ _ _) as [docs|e]; [|now left].
    right. eexists. eexists. reflexivity.
  - rewrite (process_audio_transcription_failed w path e h Hpath Hheard).
    exists (Raise e), [], []. repeat split; [constructor|now left].
Qed.

(** ** The script *)

Lemma fail_fast_transcribe (w : World) (file_path : str) (h : list Event) :
  fail_fast (transcribe_audio_path w file_path h).
Proof.
  unfold transcribe_audio_path. io_unfold.
  destruct (transcriptions_create _ _ _ _); split; cbn; congruence.
Qed.

Lemma transcribe_audio_path_run (w : World) (file_path : str)
      (h : list Event) :
  transcribe_audio_path w file_path h
  = ([Transcription (OPENAI_WHISPER_MODEL w) file_path
        (transcriptions_create w h (OPENAI_WHISPER_MODEL w) file_path)],
     match transcriptions_create w h (OPENAI_WHISPER_MODEL w) file_path with
     | Ok text => Ok text
     | Raise e =>
         Raise (lit "Failed to transcribe audio from path '" ++ file_path
                ++ lit "': " ++ e)
     end).
Proof.
  unfold transcribe_audio_path. io_unfold.
  destruct (transcriptions_create _ _ _ _); reflexivity.
Qed.

Lemma fail_fast_build (w : World) (transcript : str) (h : list Event) :
  fail_fast (build_vector_store_from_transcript w transcript h).
Proof.
  rewrite build_vector_store_run.
  destruct (split_documents _ _ _ _ _) as [docs|e];
    [|apply fail_fast_silent].
  destruct (faiss_from_documents _ _ _ _); split; cbn; congruence.
Qed.

Lemma fail_fast_ask_all (w : World) (retriever : Retriever)
      (questions : list str) :
  forall h, fail_fast (QaMain.ask_all w retriever questions h).
Proof.
  induction questions as [|q rest IH]; intros h.
  - apply fail_fast_silent.
  - cbn [QaMain.ask_all]. apply fail_fast_bind.
    + apply fail_fast_answer.
    + intros _. apply IH.
Qed.

Lemma fail_fast_main (w : World) (h : list Event) :
  fail_fast (QaMain.main w h).
Proof.
  unfold QaMain.main.
  apply fail_fast_bind; [apply fail_fast_transcribe|]. intros transcript.
  apply fail_fast_bind; [apply fail_fast_summarize|]. intros summary.
  apply fail_fast_bind; [apply fail_fast_build|]. intros [vs emb].
  apply fail_fast_ask_all.
Qed.

(** X20: the script stops at the first failure.  It starts with the
    transcription of its audio file; a failed call is the last call of the
    run and makes it raise; and, unlike the upload callback, when the
    summariser raises nothing is built and no question is asked. *)
Theorem qa_main_stops_at_first_failure :
  forall (w : World) (h : list Event),
    (exists out rest,
        fst (QaMain.main w h)
        = Transcription (OPENAI_WHISPER_MODEL w) QaMain.audio_path out :: rest)
    /\ failure_is_last (fst (QaMain.main w h)) = true
    /\ (existsb event_failed (fst (QaMain.main w h)) = true ->
        exists msg, snd (QaMain.main w h) = Raise msg)
    /\ (forall (transcript : str) (es : list Event) (e : str),
           transcriptions_create w h (OPENAI_WHISPER_MODEL w)
                                 QaMain.audio_path
           = Ok transcript ->
           summarize_meeting_with_mistral
             w transcript 5000
             (h ++ [Transcription (OPENAI_WHISPER_MODEL w) QaMain.audio_path
                                  (Ok transcript)])
           = (es, Raise e) ->
           QaMain.main w h
           = (Transcription (OPENAI_WHISPER_MODEL w) QaMain.audio_path
                            (Ok transcript) :: es,
              Raise e)).
Proof.
  intros w h. destruct (fail_fast_main w h) as [Hl Hr].
  split; [|split; [exact Hl|split]].
  - unfold QaMain.main. unfold bind at 1.
    rewrite transcribe_audio_path_run.
    destruct (transcriptions_create _ _ _ _) as [t|e].
    + destruct (bind _ _ _) as [e2 r2]. eexists. eexists. reflexivity.
    + eexists. eexists. reflexivity.
  - intros Hf. specialize (Hr Hf).
    destruct (snd (QaMain.main w h)) as [u|msg];
      [discriminate|now exists msg].
  - intros transcript es e Hheard Hsum.
    unfold QaMain.main. unfold bind at 1.
    rewrite transcribe_audio_path_run, Hheard.
    unfold bind at 1. rewrite Hsum. reflexivity.
Qed.

Lemma qa_main_stops_at_first_failure_witness :
  QaMain.main (demo_world None (Ok short_transcript) (Ok []) true) []
  = ([Transcription (lit "whisper-1") (lit "min_meeting.mp3")
                    (Ok short_transcript)],
     Raise CLIENT_NOT_CONFIGURED).
Proof.
  exact (proj2 (proj2 (proj2 (qa_main_stops_at_first_failure
                  (demo_world None (Ok short_transcript) (Ok []) true) [])))
               short_transcript [] CLIENT_NOT_CONFIGURED eq_refl eq_refl).
Defined.

Example qa_main_asks_both_questions :
  flat_map (fun e => match e with Invoke _ q _ => [q] | _ => [] end)
           (fst (QaMain.main
                   (demo_world (Some demo_client) (Ok short_transcript)
                               (Ok [doc "Bob writes the release notes."])
                               true) []))
  = [lit "What was the main topic of this discussion?";
     lit "What did they say about vector indices or retrievers?"]
  /\ snd (QaMain.main
            (demo_world (Some demo_client) (Ok short_transcript)
                        (Ok [doc "Bob writes the release notes."]) true) [])
     = Ok tt.
Proof. split; vm_compute; reflexivity. Qed.

(** ** The call pattern of the summariser *)

(** The chunk loop when every call it made was answered: one call per
    chunk, in chunk order, and the labelled replies as partial summaries. *)
Lemma summarize_chunks_answered (w : World) (client : Mistral) :
  mistral_client w = Some client ->
  forall chunks idx partial_summaries h,
    existsb event_failed
            (fst (summarize_chunks w idx chunks partial_summaries h)) = false ->
    exists replies,
      snd (summarize_chunks w idx chunks partial_summaries h)
      = Ok (partial_summaries ++ labelled idx replies)
      /\ length replies = length chunks
      /\ map event_request
             (fst (summarize_chunks w idx chunks partial_summaries h))
         = map summary_messages chunks
      /\ map event_reply
             (fst (summarize_chunks w idx chunks partial_summaries h))
         = replies
      /\ forallb is_chat_complete
                 (fst (summarize_chunks w idx chunks partial_summaries h))
         = true.
Proof.
  intros Hc chunks.
  induction chunks as [|chunk rest IH]; intros idx acc h.
  - intros _. exists []. cbn. rewrite app_nil_r. repeat split.
  - cbn [summarize_chunks]. unfold bind.
    rewrite (call_mistral_summary_chat w client _ _ Hc).
    destruct (chat_complete client h (MISTRAL_CHAT_MODEL w)
                            (summary_messages chunk))
      as [[[|c cs]]|e]; cbn [chat_outcome]; try (cbn; discriminate).
    match goal with
    | |- context [summarize_chunks w (S idx) rest ?a ?h'] =>
        specialize (IH (S idx) a h');
        destruct (summarize_chunks w (S idx) rest a h') as [evs r]
    end.
    cbn [fst snd app existsb event_failed orb] in *.
    intros Hclean. destruct (IH Hclean) as (replies & -> & Hlen & Hreq & Hrep & Hchat).
    exists (c :: replies).
    cbn [labelled length map forallb event_request event_reply
                  is_chat_complete andb].
    rewrite <- app_assoc, Hlen, Hreq, Hrep, Hchat. repeat split.
Qed.

(** C3 as stated fails.  A transcript of one space is not empty and is
    shorter than the threshold, yet no completion call is made; a transcript
    longer than the threshold whose stripped text fits in it is summarised
    directly, without splitting; without a configured client no call is
    made at all; when a call raises, the calls for the remaining chunks and
    the merge call are not made; and a transcript of 12000 characters
    without any separator is one chunk, so it triggers one partial call and
    the merge call, not the three partial calls of the quotient of 12000 by
    5000 - 300 rounded up. *)
Lemma summarize_measures_stripped_transcript :
  (lit " " <> []
   /\ len (lit " ") <= 5000
   /\ summarize_meeting_with_mistral
        (demo_world (Some demo_client) (Ok []) (Ok []) true) (lit " ") 5000 []
      = ([], Ok NO_TRANSCRIPT))
  /\ (5 < len (lit "  hello  ")
      /\ summarize_meeting_with_mistral
           (demo_world (Some demo_client) (Ok []) (Ok []) true)
           (lit "  hello  ") 5 []
         = ([ChatComplete (lit "mistral-small-latest")
                          (summary_messages (lit "hello"))
                          (Ok (mkChatResponse [lit "reply 0"]))],
            Ok (lit "reply 0")))
  /\ summarize_meeting_with_mistral
       (demo_world None (Ok []) (Ok []) true) (lit "hello") 5000 []
     = ([], Raise CLIENT_NOT_CONFIGURED)
  /\ (RecursiveCharacterTextSplitter.split_text 5000 300 SEPARATORS
        two_paragraphs
      = Ok [repeat 97%N (Z.to_nat 3000); repeat 98%N (Z.to_nat 3000)]
      /\ summarize_meeting_with_mistral
           (demo_world (Some failing_client) (Ok []) (Ok []) true)
           two_paragraphs 5000 []
         = ([ChatComplete (lit "mistral-small-latest")
               (summary_messages (repeat 97%N (Z.to_nat 3000)))
               (Raise (lit "quota exceeded"))],
            Raise (lit "Failed to get summary from Mistral: "
                   ++ lit "quota exceeded")))
  /\ (len long_transcript = 12000
      /\ (12000 + (5000 - 300) - 1) / (5000 - 300) = 3
      /\ RecursiveCharacterTextSplitter.split_text 5000 300 SEPARATORS
           long_transcript
         = Ok [long_transcript]
      /\ map event_request
             (fst (summarize_meeting_with_mistral
                     (demo_world (Some demo_client) (Ok []) (Ok []) true)
                     long_transcript 5000 []))
         = [summary_messages long_transcript;
            summary_messages
              (final_messages_text
                 [lit "Chunk 1 summary:" ++ nl ++ lit "reply 0"])]
      /\ snd (summarize_meeting_with_mistral
                (demo_world (Some demo_client) (Ok []) (Ok []) true)
                long_transcript 5000 [])
         = Ok (lit "reply 1")).
Proof.
  split; [repeat split; try reflexivity; discriminate|].
  split; [split; reflexivity|].
  split; [reflexivity|].
  split; [split; vm_compute; reflexivity|].
  repeat split; vm_compute; reflexivity.
Qed.

(** C3, amended: lengths are those of the stripped transcript, which must
    not be empty, and the client is configured.  Within the threshold,
    exactly one completion call is made, on the stripped transcript.  Above
    it the stripped transcript is split with [chunk_size] the threshold and
    overlap 300, and when the splitter returns and no call of the run
    fails, the calls are exactly one per chunk, in chunk order, followed by
    one merge call on the labelled partial summaries, whose reply is
    returned; the number of partial calls is the number of chunks. *)
Theorem summarize_call_pattern :
  forall (w : World) (client : Mistral) (transcript : str)
         (max_direct_chars : Z) (h : list Event),
    mistral_client w = Some client ->
    strip transcript <> [] ->
    (len (strip transcript) <= max_direct_chars ->
     fst (summarize_meeting_with_mistral w transcript max_direct_chars h)
     = [ChatComplete (MISTRAL_CHAT_MODEL w)
          (summary_messages (strip transcript))
          (chat_complete client h (MISTRAL_CHAT_MODEL w)
                         (summary_messages (strip transcript)))])
    /\
    (max_direct_chars < len (strip transcript) ->
     forall chunks : list str,
       split_text w max_direct_chars 300 SEPARATORS (strip transcript)
       = Ok chunks ->
       existsb event_failed
               (fst (summarize_meeting_with_mistral
                       w transcript max_direct_chars h)) = false ->
       exists (replies : list str) (final : str),
         length replies = length chunks
         /\ map event_request
                (fst (summarize_meeting_with_mistral
                        w transcript max_direct_chars h))
            = map summary_messages chunks
              ++ [summary_messages
                    (final_messages_text (labelled 1 replies))]
         /\ map event_reply
                (fst (summarize_meeting_with_mistral
                        w transcript max_direct_chars h))
            = replies ++ [final]
         /\ forallb is_chat_complete
                    (fst (summarize_meeting_with_mistral
                            w transcript max_direct_chars h)) = true
         /\ length (fst (summarize_meeting_with_mistral
                           w transcript max_direct_chars h))
            = S (length chunks)
         /\ snd (summarize_meeting_with_mistral
                   w transcript max_direct_chars h)
            = Ok final).
Proof.
  intros w client transcript max_direct_chars h Hc Hne. split.
  - intros Hle. unfold summarize_meeting_with_mistral.
    destruct (is_empty (strip transcript)) eqn:He.
    { apply is_empty_true in He. contradiction. }
    apply Z.leb_le in Hle. rewrite Hle.
    rewrite (call_mistral_summary_chat w client _ _ Hc). reflexivity.
  - intros Hgt chunks Hsplit.
    rewrite (summarize_chunked_run w transcript max_direct_chars h chunks
                                   Hne Hgt Hsplit).
    pose proof (summarize_chunks_answered w client Hc chunks 1%nat [] h)
      as Hloop.
    destruct (summarize_chunks w 1 chunks [] h) as [evs r].
    cbn [fst snd] in *.
    assert (Hevs : existsb event_failed
                           (fst match r with
                                | Ok ps =>
                                    (evs
                                     ++ fst (_call_mistral_summary
                                               w (final_messages_text ps)
                                               (h ++ evs)),
                                     snd (_call_mistral_summary
                                            w (final_messages_text ps)
                                            (h ++ evs)))
                                | Raise msg => (evs, Raise msg)
                                end) = false ->
                   existsb event_failed evs = false).
    { destruct r; cbn [fst]; [|tauto].
      rewrite existsb_app. intros H. now apply orb_false_elim in H. }
    intros Hclean.
    destruct (Hloop (Hevs Hclean))
      as (replies & -> & Hlen & Hreq & Hrep & Hchat).
    cbn [app fst snd] in *.
    rewrite (call_mistral_summary_chat w client _ _ Hc) in *.
    cbn [fst snd] in *.
    rewrite existsb_app in Hclean. apply orb_false_elim in Hclean as [_ Hlast].
    destruct (chat_complete client (h ++ evs) (MISTRAL_CHAT_MODEL w)
                            (summary_messages
                               (final_messages_text (labelled 1 replies))))
      as [[[|c cs]]|e]; try discriminate Hlast.
    exists replies, c.
    rewrite !map_app, forallb_app, length_app, Hreq, Hrep, Hchat.
    cbn. rewrite <- (length_map event_reply evs), Hrep, Hlen.
    repeat split. lia.
Qed.

Lemma summarize_call_pattern_witness :
  mistral_client (demo_world (Some demo_client) (Ok []) (Ok []) true)
  = Some demo_client
  /\ 5000 < len (strip two_paragraphs)
  /\ split_text (demo_world (Some demo_client) (Ok []) (Ok []) true)
                5000 300 SEPARATORS (strip two_paragraphs)
     = Ok [repeat 97%N (Z.to_nat 3000); repeat 98%N (Z.to_nat 3000)]
  /\ existsb event_failed
             (fst (summarize_meeting_with_mistral
                     (demo_world (Some demo_client) (Ok []) (Ok []) true)
                     two_paragraphs 5000 [])) = false
  /\ length (fst (summarize_meeting_with_mistral
                    (demo_world (Some demo_client) (Ok []) (Ok []) true)
                    two_paragraphs 5000 []))
     = 3%nat.
Proof.
  assert (Hne : strip two_paragraphs <> []).
  { vm_compute. discriminate. }
  assert (Hgt : 5000 < len (strip two_paragraphs)).
  { vm_compute. reflexivity. }
  assert (Hs : split_text (demo_world (Some demo_client) (Ok []) (Ok []) true)
                          5000 300 SEPARATORS (strip two_paragraphs)
               = Ok [repeat 97%N (Z.to_nat 3000);
                     repeat 98%N (Z.to_nat 3000)]).
  { vm_compute. reflexivity. }
  assert (Hclean : existsb event_failed
                     (fst (summarize_meeting_with_mistral
                             (demo_world (Some demo_client) (Ok []) (Ok [])
                                         true)
                             two_paragraphs 5000 [])) = false).
  { vm_compute. reflexivity. }
  split; [reflexivity|]. split; [exact Hgt|]. split; [exact Hs|].
  split; [exact Hclean|].
  destruct (proj2 (summarize_call_pattern
                     (demo_world (Some demo_client) (Ok []) (Ok []) true)
                     demo_client two_paragraphs 5000 [] eq_refl Hne)
                  Hgt _ Hs Hclean)
    as (replies & final & _ & _ & _ & _ & Hlen & _).
  rewrite Hlen. reflexivity.
Defined.
